(** * go-gist: the selector, the argument checks and the upload dispatcher

    A shallow embedding of [main.go].  Sequential code ([init],
    [checkForArgumentErrors], [getFilesToUpload], [main]) is written in a
    small monad that threads the package-level variables, records every
    externally visible call as an event and stops at [os.Exit].  The
    goroutines and the channel of [processFiles] are a transition system
    whose scheduler is an explicit list of choices.

    [main.go] imports the package [github.com/voidpirate/go-gist/file],
    whose code is not covered here.  Its queries ([Exists], [Size],
    [Name]) and its constant [KB] are parameters (record [FilePkg]); its
    type [LocalFile], its constructor [New] and the behaviour of [Upload]
    are modelled from the specification and marked as such. *)

From Stdlib Require Import ZArith Ascii String.
From stdpp Require Import base list strings relations.

Local Open Scope Z_scope.
Local Open Scope string_scope.
Local Open Scope list_scope.

(** ** Data *)

(** A Go [error] is represented by its message; [option error] is a
    possibly-nil error. *)
Definition error := string.

(** Modelled from the spec: the struct [file.LocalFile], declared in the
    absent package [file]: "LocalFile: { path: string, dryRun: flag }".
    [main.go] reads the field [FilePath]. *)
Record LocalFile := mkLocalFile { FilePath : string; DryRun : bool }.

(** Modelled from the spec: [file.New(path, dryRun)], absent from the
    sources.  "LocalFile: { path: string, dryRun: flag } ... created once
    per input path at selection time". *)
Definition New (filePath : string) (dryRun : bool) : LocalFile :=
  {| FilePath := filePath; DryRun := dryRun |}.

(** The part of package [file] that [main.go] calls and that lives with
    the filesystem: a parameter of the development.
    - [Exists] returns Go's pair [(bool, error)];
    - [Size] is a byte count.  Go compares it with [maxFilesize] as a
      number; byte counts are integers, so the comparison is the one of [Z];
    - [Name] returns Go's pair [(string, error)];
    - [KB] is the constant [file.KB]. *)
Record FilePkg := {
  KB : Z;
  Exists : LocalFile -> bool * option error;
  Size : LocalFile -> Z;
  Name : LocalFile -> string * option error
}.

(** What the operating system hands to the process: the command line as
    [flag.Parse] understood it, and the environment.  [flag.Parse] itself
    belongs to the Go library; the model starts from its successful
    result. *)
Record OS := {
  cl_upload : bool;
  cl_dryrun : bool;
  cl_allow_large_files : bool;
  cl_args : list string;
  environ : list (string * string)
}.

(** The package-level variables of [main.go], together with the positional
    arguments kept by package [flag].  ([files] is declared in the source
    but never used.) *)
Record Globals := {
  upload : bool;
  dryRun : bool;
  allowLargeFiles : bool;
  githubToken : string;
  flagArgs : list string
}.

Definition initial_globals : Globals :=
  {| upload := false; dryRun := false; allowLargeFiles := false;
     githubToken := EmptyString; flagArgs := [] |}.

(** [fileStatus], the struct local to [processFiles]. *)
Record fileStatus := mkStatus { f : LocalFile; err : option error }.

(** The zero value received from a closed, empty channel. *)
Definition zero_fileStatus : fileStatus :=
  {| f := {| FilePath := EmptyString; DryRun := false |}; err := None |}.

(** ** Events *)

(** Arguments of the logging calls, kept unformatted.  A numeric argument
    is a byte count, or the quotient of two of them as the source writes
    it ([maxFilesize/file.KB]). *)
Inductive arg :=
| AString (s : string)
| ANumber (x : Z)
| AQuotient (x y : Z)
| AError (e : error).

(** One event per externally visible call of [main.go]. *)
Inductive event :=
| EvUsage                                        (* flag.Usage() *)
| EvPrintf (format : string) (args : list arg)   (* log.Printf(format, args...) *)
| EvPrint (a : arg)                              (* the line written by log.Fatal(a) *)
| EvExists (lf : LocalFile)                      (* lf.Exists() *)
| EvSize (lf : LocalFile)                        (* lf.Size() *)
| EvNewClient (token : string)                   (* oauth2 / github.NewClient *)
| EvMakeChan (n : nat)                           (* make(chan fileStatus, n) *)
| EvClose                                        (* close(ch) *)
| EvGo (lf : LocalFile)                          (* go func(f){...}(lf) *)
| EvUpload (lf : LocalFile)                      (* lf.Upload(ctx, client) *)
| EvDescribe (lf : LocalFile)                    (* Upload only describes lf *)
| EvCreateGist (lf : LocalFile)                  (* Upload calls the remote service *)
| EvSend (s : fileStatus)                        (* ch <- s *)
| EvRecv (s : fileStatus).                       (* <-ch *)

(** ** The monad of the sequential code *)

Inductive result (A : Type) :=
| Ret (a : A) (g : Globals)       (* normal return, with the variables *)
| Exit (code : Z).                (* os.Exit(code) *)
Arguments Ret {A} a g.
Arguments Exit {A} code.

Definition M (A : Type) : Type := Globals -> list event * result A.

Definition ret {A} (a : A) : M A := fun g => ([], Ret a g).

Definition bind {A B} (m : M A) (k : A -> M B) : M B :=
  fun g =>
    match m g with
    | (tr, Ret a g') => let '(tr', r) := k a g' in (tr ++ tr', r)
    | (tr, Exit c) => (tr, Exit c)
    end.

Notation "x <- m ;; k" := (bind m (fun x => k))
  (at level 100, m at next level, right associativity).
Notation "m ;; k" := (bind m (fun _ => k))
  (at level 100, right associativity).

Definition get : M Globals := fun g => ([], Ret g g).
Definition put (g : Globals) : M unit := fun _ => ([], Ret tt g).
Definition emit (e : event) : M unit := fun g => ([e], Ret tt g).
Definition os_Exit {A} (code : Z) : M A := fun _ => ([], Exit code).

Definition when (b : bool) (m : M unit) : M unit := if b then m else ret tt.

Definition log_Printf (format : string) (args : list arg) : M unit :=
  emit (EvPrintf format args).

(** [log.Fatal] writes its argument and calls [os.Exit(1)]. *)
Definition log_Fatal {A} (a : arg) : M A := emit (EvPrint a) ;; os_Exit 1.

(** [fmt.Sprintf] for formats whose only verb is [%s]. *)
Fixpoint Sprintf (format : string) (args : list string) : string :=
  match format with
  | String "%"%char (String "s"%char rest) =>
      match args with
      | a :: args' => a +:+ Sprintf rest args'
      | [] => "%!s(MISSING)" +:+ Sprintf rest []
      end
  | String c rest => String c (Sprintf rest args)
  | EmptyString => EmptyString
  end.

(** [os.Getenv]: the value of the first binding of [key], the empty string
    when there is none. *)
Fixpoint os_Getenv (env : list (string * string)) (key : string) : string :=
  match env with
  | [] => EmptyString
  | (k, v) :: env' => if String.eqb k key then v else os_Getenv env' key
  end.

(** ** [main.go] *)

Definition GitHubAPITokenEnv : string := "GITHUB_API_TOKEN".

Section Program.

Variable pkg : FilePkg.
Variable os : OS.

(** [maxFilesize = file.KB * 50]. *)
Definition maxFilesize : Z := KB pkg * 50.

(** [flag.Parse()]: the flag variables registered with [flag.BoolVar]
    receive the values of the command line. *)
Definition flag_Parse : M unit :=
  g <- get ;;
  put {| upload := cl_upload os; dryRun := cl_dryrun os;
         allowLargeFiles := cl_allow_large_files os;
         githubToken := githubToken g; flagArgs := cl_args os |}.

Definition flag_Usage : M unit := emit EvUsage.
Definition flag_Args : M (list string) := g <- get ;; ret (flagArgs g).
Definition flag_NArg : M nat := g <- get ;; ret (length (flagArgs g)).

Definition init : M unit :=
  flag_Parse ;;
  g <- get ;;
  put {| upload := upload g; dryRun := dryRun g;
         allowLargeFiles := allowLargeFiles g;
         githubToken := os_Getenv (environ os) GitHubAPITokenEnv;
         flagArgs := flagArgs g |} ;;
  g <- get ;;
  when (String.eqb (githubToken g) EmptyString)
    (let errText :=
       Sprintf "Environment variable required but missing: %s" ["GITHUB_API_TOKEN"] in
     log_Fatal (AString errText)).

Definition checkForArgumentErrors : M unit :=
  g <- get ;;
  when (negb (upload g) && negb (dryRun g))
    (flag_Usage ;; log_Fatal (AString "Nothing to do")) ;;
  when (upload g && dryRun g)
    (log_Fatal (AString "Can't upload and dryrun at the same time")) ;;
  n <- flag_NArg ;;
  when (upload g && Nat.eqb n 0)
    (log_Fatal (AString "Selected -upload with no files")) ;;
  when (dryRun g)
    (log_Printf "Doing dry run, nothing will be uploaded" []).

(** The body of the [for _, f := range files] loop of [getFilesToUpload]:
    it returns the new value of [filesToUpload]; [continue] returns it
    unchanged. *)
Definition getFilesToUpload_body (path : string) (filesToUpload : list LocalFile)
  : M (list LocalFile) :=
  g <- get ;;
  let localFile := New path (dryRun g) in
  emit (EvExists localFile) ;;
  match snd (Exists pkg localFile) with
  | Some _ =>
      log_Printf "[WARNING] %s not found, excluding from upload"
        [AString (FilePath localFile)] ;;
      ret filesToUpload
  | None =>
      if negb (allowLargeFiles g) then
        emit (EvSize localFile) ;;
        let localFilesize := Size pkg localFile in
        if (localFilesize >? maxFilesize)%Z then
          log_Printf
            "[WARNING] excluding %s from upload. File exceeds %2.fKB: %2.f (%2.fKB)"
            [AString (FilePath localFile);
             AQuotient maxFilesize (KB pkg);
             ANumber localFilesize;
             AQuotient localFilesize (KB pkg)] ;;
          ret filesToUpload
        else ret (filesToUpload ++ [localFile])
      else ret (filesToUpload ++ [localFile])
  end.

Fixpoint getFilesToUpload_loop (files : list string) (filesToUpload : list LocalFile)
  : M (list LocalFile) :=
  match files with
  | [] => ret filesToUpload
  | path :: rest =>
      filesToUpload' <- getFilesToUpload_body path filesToUpload ;;
      getFilesToUpload_loop rest filesToUpload'
  end.

Definition no_files_error : error := "go-gist: no files to upload".

Definition getFilesToUpload (files : list string) : M (list LocalFile * option error) :=
  filesToUpload <- getFilesToUpload_loop files [] ;;
  if Nat.eqb (length filesToUpload) 0
  then ret (filesToUpload, Some no_files_error)
  else ret (filesToUpload, None).

(** [main] up to its last statement, the call
    [processFiles(ctx, client, filesToUpload)]; the value returned is the
    list passed to that call. *)
Definition main : M (list LocalFile) :=
  checkForArgumentErrors ;;
  argFiles <- flag_Args ;;
  r <- getFilesToUpload argFiles ;;
  match snd r with
  | Some e => log_Fatal (AError e)
  | None =>
      g <- get ;;
      emit (EvNewClient (githubToken g)) ;;
      ret (fst r)
  end.

End Program.

(** ** [processFiles] *)

(** Modelled from the spec: [LocalFile.Upload], absent from the sources.
    "When dry-run is active ... files are only described, never
    transmitted"; otherwise "each task performs the remote create-call",
    whose answer [res] is decided by the remote service.  The result is the
    events of the call and the error it returns. *)
Definition Upload (lf : LocalFile) (res : option error) : list event * option error :=
  if DryRun lf
  then ([EvUpload lf; EvDescribe lf], None)
  else ([EvUpload lf; EvCreateGist lf], res).

(** A buffered channel of [fileStatus]. *)
Record chan := mkChan { cap : nat; buf : list fileStatus; closed : bool }.

(** [<-ch]: the oldest buffered value; the zero value at once when the
    channel is closed and empty; [None] when the receiver has to wait. *)
Definition chan_recv (c : chan) : option (fileStatus * chan) :=
  match buf c with
  | s :: b => Some (s, {| cap := cap c; buf := b; closed := closed c |})
  | [] => if closed c then Some (zero_fileStatus, c) else None
  end.

Inductive send_result :=
| Sent (c : chan)
| Blocked          (* the buffer is full: the sender waits *)
| SendPanic.       (* send on a closed channel *)

(** [ch <- s]. *)
Definition chan_send (s : fileStatus) (c : chan) : send_result :=
  if closed c then SendPanic
  else if Nat.ltb (length (buf c)) (cap c)
       then Sent {| cap := cap c; buf := buf c ++ [s]; closed := closed c |}
       else Blocked.

(** A goroutine started at line 116. *)
Inductive task :=
| TUpload (lf : LocalFile)     (* before  err := f.Upload(ctx, uploadClient) *)
| TSend (s : fileStatus)       (* before  ch <- s *)
| TDone (s : fileStatus).      (* finished, [s] has been sent *)

(** Where the goroutine running [processFiles] stands. *)
Inductive pc :=
| PClose                          (* line 106, [ch] has just been made *)
| PRange (rest : list LocalFile)  (* line 110, files still to visit *)
| PDrain (rest : list LocalFile)  (* line 127, iterations still to run *)
| PReturned                       (* line 140 *)
| PPanic.                         (* the process died of a panic *)

Record pstate := mkPstate {
  filesToProcess : list LocalFile;
  at_pc : pc;
  ch : chan;
  tasks : list task;
  trace : list event
}.

(** The state after line 104, [ch := make(chan fileStatus, len(filesToProcess))]. *)
Definition processFiles_start (files : list LocalFile) : pstate :=
  {| filesToProcess := files; at_pc := PClose;
     ch := {| cap := length files; buf := []; closed := false |};
     tasks := [];
     trace := [EvMakeChan (length files)] |}.

(** The scheduler picks the goroutine that moves next; for a task about to
    upload, [res] is the answer of the remote service. *)
Inductive choice :=
| Main
| Task (i : nat) (res : option error).

Section Dispatcher.

Variable pkg : FilePkg.
(** The package-level variable [dryRun], constant while [processFiles] runs. *)
Variable dry : bool.

(** Lines 130-138: what the drain loop logs for one received status. *)
Definition report (fi : fileStatus) : list event :=
  match err fi with
  | Some _ =>
      match Name pkg (f fi) with
      | (_, Some e) => [EvPrintf "%v" [AError e]]
      | (fname, None) => [EvPrintf "[ERROR] create gist failed (%s)" [AString fname]]
      end
  | None => []
  end.

(** One step of the goroutine that runs [processFiles]. *)
Definition step_main (s : pstate) : option pstate :=
  match at_pc s with
  | PClose =>
      if dry
      then Some {| filesToProcess := filesToProcess s; at_pc := PRange (filesToProcess s);
                   ch := {| cap := cap (ch s); buf := buf (ch s); closed := true |};
                   tasks := tasks s; trace := trace s ++ [EvClose] |}
      else Some {| filesToProcess := filesToProcess s; at_pc := PRange (filesToProcess s);
                   ch := ch s; tasks := tasks s; trace := trace s |}
  | PRange (lf :: rest) =>
      if dry
      then Some {| filesToProcess := filesToProcess s; at_pc := PRange rest;
                   ch := ch s; tasks := tasks s;
                   trace := trace s ++ fst (Upload lf None) |}
      else Some {| filesToProcess := filesToProcess s; at_pc := PRange rest;
                   ch := ch s; tasks := tasks s ++ [TUpload lf];
                   trace := trace s ++ [EvGo lf] |}
  | PRange [] =>
      Some {| filesToProcess := filesToProcess s; at_pc := PDrain (filesToProcess s);
              ch := ch s; tasks := tasks s; trace := trace s |}
  | PDrain (_ :: rest) =>
      match chan_recv (ch s) with
      | Some (fi, c) =>
          Some {| filesToProcess := filesToProcess s; at_pc := PDrain rest;
                  ch := c; tasks := tasks s;
                  trace := trace s ++ EvRecv fi :: report fi |}
      | None => None
      end
  | PDrain [] =>
      Some {| filesToProcess := filesToProcess s; at_pc := PReturned;
              ch := ch s; tasks := tasks s; trace := trace s |}
  | PReturned => None
  | PPanic => None
  end.

(** Goroutines move only while the process lives: it ends when
    [processFiles] (and then [main]) returns, or on a panic. *)
Definition running (s : pstate) : bool :=
  match at_pc s with
  | PReturned | PPanic => false
  | _ => true
  end.

(** One step of the [i]-th goroutine started by the loop (lines 116-124). *)
Definition step_task (i : nat) (res : option error) (s : pstate) : option pstate :=
  if running s then
    match tasks s !! i with
    | Some (TUpload lf) =>
        let '(evs, e) := Upload lf res in
        Some {| filesToProcess := filesToProcess s; at_pc := at_pc s; ch := ch s;
                tasks := <[i := TSend {| f := lf; err := e |}]> (tasks s);
                trace := trace s ++ evs |}
    | Some (TSend st) =>
        match chan_send st (ch s) with
        | Sent c =>
            Some {| filesToProcess := filesToProcess s; at_pc := at_pc s; ch := c;
                    tasks := <[i := TDone st]> (tasks s);
                    trace := trace s ++ [EvSend st] |}
        | Blocked => None
        | SendPanic =>
            Some {| filesToProcess := filesToProcess s; at_pc := PPanic; ch := ch s;
                    tasks := tasks s; trace := trace s |}
        end
    | Some (TDone _) => None
    | None => None
    end
  else None.

Definition exec (c : choice) (s : pstate) : option pstate :=
  match c with
  | Main => step_main s
  | Task i res => step_task i res s
  end.

Definition step (s s' : pstate) : Prop := exists c, exec c s = Some s'.

(** The states [processFiles files] can be in. *)
Definition reachable (files : list LocalFile) (s : pstate) : Prop :=
  rtc step (processFiles_start files) s.

(** Running under a given schedule; a choice that cannot move is skipped. *)
Fixpoint run (sched : list choice) (s : pstate) : pstate :=
  match sched with
  | [] => s
  | c :: sched' =>
      match exec c s with
      | Some s' => run sched' s'
      | None => run sched' s
      end
  end.

End Dispatcher.

(** The exit status of the process once [processFiles] is over: [main]
    returns right after it (status 0); a panic ends the process with
    status 2; [None] while goroutines still run. *)
Definition exit_status (s : pstate) : option Z :=
  match at_pc s with
  | PReturned => Some 0
  | PPanic => Some 2
  | _ => None
  end.

(** ** The whole process

    Go runs [init] before [main]; [main] ends with [processFiles]. *)
Definition process (pkg : FilePkg) (os : OS) (sched : list choice)
  : list event * option Z :=
  match (init os ;; main pkg) initial_globals with
  | (tr, Exit code) => (tr, Some code)
  | (tr, Ret files g) =>
      let s := run pkg (dryRun g) sched (processFiles_start files) in
      (tr ++ trace s, exit_status s)
  end.

(** ** Auxiliary definitions used by the statements *)

(** The variables as [init] leaves them when it returns. *)
Definition globals_after_init (os : OS) : Globals :=
  {| upload := cl_upload os; dryRun := cl_dryrun os;
     allowLargeFiles := cl_allow_large_files os;
     githubToken := os_Getenv (environ os) GitHubAPITokenEnv;
     flagArgs := cl_args os |}.

(** The same variables with [allowLargeFiles] set to [b]. *)
Definition with_allowLargeFiles (b : bool) (g : Globals) : Globals :=
  {| upload := upload g; dryRun := dryRun g; allowLargeFiles := b;
     githubToken := githubToken g; flagArgs := flagArgs g |}.

(** Whether one iteration of the selector's loop appends its file, and the
    events of that iteration: a closed form of [getFilesToUpload_body],
    proved equal to it in [getFilesToUpload_body_eq]. *)
Definition keeps (pkg : FilePkg) (g : Globals) (path : string) : bool :=
  let lf := New path (dryRun g) in
  match snd (Exists pkg lf) with
  | Some _ => false
  | None => allowLargeFiles g || negb (Size pkg lf >? maxFilesize pkg)%Z
  end.

Definition not_found_warning (path : string) : event :=
  EvPrintf "[WARNING] %s not found, excluding from upload" [AString path].

Definition too_large_warning (pkg : FilePkg) (path : string) (size : Z) : event :=
  EvPrintf "[WARNING] excluding %s from upload. File exceeds %2.fKB: %2.f (%2.fKB)"
    [AString path;
     AQuotient (maxFilesize pkg) (KB pkg);
     ANumber size;
     AQuotient size (KB pkg)].

Definition body_trace (pkg : FilePkg) (g : Globals) (path : string) : list event :=
  let lf := New path (dryRun g) in
  match snd (Exists pkg lf) with
  | Some _ => [EvExists lf; not_found_warning path]
  | None =>
      if allowLargeFiles g then [EvExists lf]
      else if (Size pkg lf >? maxFilesize pkg)%Z
           then [EvExists lf; EvSize lf; too_large_warning pkg path (Size pkg lf)]
           else [EvExists lf; EvSize lf]
  end.

(** The list the selector returns, in closed form (see
    [getFilesToUpload_eq]). *)
Definition selected (pkg : FilePkg) (g : Globals) (files : list string)
  : list LocalFile :=
  map (fun p => New p (dryRun g)) (List.filter (keeps pkg g) files).

(** Events that only [processFiles] produces. *)
Definition dispatcher_event (e : event) : bool :=
  match e with
  | EvMakeChan _ | EvClose | EvGo _ | EvUpload _ | EvDescribe _
  | EvCreateGist _ | EvSend _ | EvRecv _ => true
  | _ => false
  end.

(** Calls that touch the filesystem or the remote service. *)
Definition touches_outside (e : event) : bool :=
  match e with
  | EvExists _ | EvSize _ | EvNewClient _ | EvGo _ | EvUpload _
  | EvDescribe _ | EvCreateGist _ => true
  | _ => false
  end.

(** The line [init] hands to [log.Fatal]. *)
Definition missing_token_message : string :=
  Sprintf "Environment variable required but missing: %s" ["GITHUB_API_TOKEN"].

Definition quiet (e : event) : Prop := touches_outside e = false.
Definition not_dispatched (e : event) : Prop := dispatcher_event e = false.

(** ** Observations on a state of [processFiles] *)

(** The file a goroutine was started with. *)
Definition task_file (t : task) : LocalFile :=
  match t with
  | TUpload lf => lf
  | TSend st => f st
  | TDone st => f st
  end.

(** The outcomes already sent, in the order the tasks were started. *)
Definition sent (ts : list task) : list fileStatus :=
  omap (fun t => match t with TDone st => Some st | _ => None end) ts.

(** The outcomes the drain loop has received so far, oldest first. *)
Definition received (tr : list event) : list fileStatus :=
  omap (fun e => match e with EvRecv st => Some st | _ => None end) tr.

(** The goroutines started so far, oldest first. *)
Definition started (tr : list event) : list LocalFile :=
  omap (fun e => match e with EvGo lf => Some lf | _ => None end) tr.

(** The lines written with [log.Printf]. *)
Definition logged (tr : list event) : list event :=
  List.filter (fun e => match e with EvPrintf _ _ => true | _ => false end) tr.

Arguments sent : simpl never.
Arguments received : simpl never.
Arguments started : simpl never.
Arguments logged : simpl never.

(** Files the [range] loop has not visited yet. *)
Definition to_spawn (s : pstate) : list LocalFile :=
  match at_pc s with
  | PClose => filesToProcess s
  | PRange rest => rest
  | _ => []
  end.

(** Iterations the drain loop has still to run. *)
Definition to_drain (s : pstate) : nat :=
  match at_pc s with
  | PClose | PRange _ => length (filesToProcess s)
  | PDrain rest => length rest
  | _ => 0%nat
  end.

(** A termination measure: every step of every goroutine lowers it. *)
Definition task_weight (t : task) : nat :=
  match t with
  | TUpload _ => 2%nat
  | TSend _ => 1%nat
  | TDone _ => 0%nat
  end.

Definition pc_weight (n : nat) (p : pc) : nat :=
  match p with
  | PClose => (4 * n + 3)%nat
  | PRange rest => (3 * length rest + n + 2)%nat
  | PDrain rest => (length rest + 1)%nat
  | PReturned => 0%nat
  | PPanic => 0%nat
  end.

Definition measure (s : pstate) : nat :=
  (pc_weight (length (filesToProcess s)) (at_pc s)
   + sum_list_with task_weight (tasks s))%nat.

(** What a synchronous [Upload] of each file leaves in the trace. *)
Definition described (files : list LocalFile) : list event :=
  flat_map (fun lf => fst (Upload lf None)) files.

(** The invariant of [processFiles] in upload mode. *)
Record upload_inv (pkg : FilePkg) (files : list LocalFile) (s : pstate) : Prop := {
  ui_files : filesToProcess s = files;
  ui_cap : cap (ch s) = length files;
  ui_open : closed (ch s) = false;
  ui_spawned : map task_file (tasks s) ++ to_spawn s = files;
  ui_started : started (trace s) = map task_file (tasks s);
  ui_chan : received (trace s) ++ buf (ch s) ≡ₚ sent (tasks s);
  ui_drain : (length (received (trace s)) + to_drain s)%nat = length files;
  ui_alive : at_pc s <> PPanic;
  ui_logged : logged (trace s) = flat_map (report pkg) (received (trace s))
}.

(** The invariant of [processFiles] in dry-run mode. *)
Record dry_inv (files : list LocalFile) (s : pstate) : Prop := {
  di_files : filesToProcess s = files;
  di_tasks : tasks s = [];
  di_buf : buf (ch s) = [];
  di_shape :
    match at_pc s with
    | PClose => closed (ch s) = false /\ trace s = [EvMakeChan (length files)]
    | PRange rest =>
        closed (ch s) = true /\
        exists visited, files = visited ++ rest /\
          trace s = [EvMakeChan (length files); EvClose] ++ described visited
    | PDrain rest =>
        closed (ch s) = true /\
        exists k : nat, (k + length rest)%nat = length files /\
          trace s = [EvMakeChan (length files); EvClose] ++ described files
                    ++ replicate k (EvRecv zero_fileStatus)
    | PReturned =>
        closed (ch s) = true /\
        trace s = [EvMakeChan (length files); EvClose] ++ described files
                  ++ replicate (length files) (EvRecv zero_fileStatus)
    | PPanic => False
    end
}.

(** The steps of [exec], one constructor per case of [step_main] and
    [step_task]; [exec_transition] shows that [exec] takes no other step. *)
Inductive transition (pkg : FilePkg) (dry : bool) : pstate -> pstate -> Prop :=
| tr_close s :
    at_pc s = PClose -> dry = true ->
    transition pkg dry s
      {| filesToProcess := filesToProcess s; at_pc := PRange (filesToProcess s);
         ch := {| cap := cap (ch s); buf := buf (ch s); closed := true |};
         tasks := tasks s; trace := trace s ++ [EvClose] |}
| tr_keep_open s :
    at_pc s = PClose -> dry = false ->
    transition pkg dry s
      {| filesToProcess := filesToProcess s; at_pc := PRange (filesToProcess s);
         ch := ch s; tasks := tasks s; trace := trace s |}
| tr_describe s lf rest :
    at_pc s = PRange (lf :: rest) -> dry = true ->
    transition pkg dry s
      {| filesToProcess := filesToProcess s; at_pc := PRange rest;
         ch := ch s; tasks := tasks s;
         trace := trace s ++ fst (Upload lf None) |}
| tr_go s lf rest :
    at_pc s = PRange (lf :: rest) -> dry = false ->
    transition pkg dry s
      {| filesToProcess := filesToProcess s; at_pc := PRange rest;
         ch := ch s; tasks := tasks s ++ [TUpload lf];
         trace := trace s ++ [EvGo lf] |}
| tr_range_end s :
    at_pc s = PRange [] ->
    transition pkg dry s
      {| filesToProcess := filesToProcess s; at_pc := PDrain (filesToProcess s);
         ch := ch s; tasks := tasks s; trace := trace s |}
| tr_recv s lf rest fi c :
    at_pc s = PDrain (lf :: rest) -> chan_recv (ch s) = Some (fi, c) ->
    transition pkg dry s
      {| filesToProcess := filesToProcess s; at_pc := PDrain rest;
         ch := c; tasks := tasks s;
         trace := trace s ++ EvRecv fi :: report pkg fi |}
| tr_return s :
    at_pc s = PDrain [] ->
    transition pkg dry s
      {| filesToProcess := filesToProcess s; at_pc := PReturned;
         ch := ch s; tasks := tasks s; trace := trace s |}
| tr_upload s i lf res evs e :
    running s = true -> tasks s !! i = Some (TUpload lf) ->
    Upload lf res = (evs, e) ->
    transition pkg dry s
      {| filesToProcess := filesToProcess s; at_pc := at_pc s; ch := ch s;
         tasks := <[i := TSend {| f := lf; err := e |}]> (tasks s);
         trace := trace s ++ evs |}
| tr_send s i st c :
    running s = true -> tasks s !! i = Some (TSend st) ->
    chan_send st (ch s) = Sent c ->
    transition pkg dry s
      {| filesToProcess := filesToProcess s; at_pc := at_pc s; ch := c;
         tasks := <[i := TDone st]> (tasks s);
         trace := trace s ++ [EvSend st] |}
| tr_send_panic s i st :
    running s = true -> tasks s !! i = Some (TSend st) ->
    chan_send st (ch s) = SendPanic ->
    transition pkg dry s
      {| filesToProcess := filesToProcess s; at_pc := PPanic; ch := ch s;
         tasks := tasks s; trace := trace s |}.

(** The events a dry run of [processFiles] may produce. *)
Definition dry_event (e : event) : bool :=
  match e with
  | EvMakeChan _ | EvClose | EvUpload _ | EvDescribe _ => true
  | EvRecv st => match err st with None => true | Some _ => false end
  | _ => false
  end.

(** ** Further observations on traces *)

(** The files [Exists] was called on, in order. *)
Definition exists_calls (tr : list event) : list LocalFile :=
  omap (fun e => match e with EvExists lf => Some lf | _ => None end) tr.

(** The files [Size] was called on, in order. *)
Definition size_calls (tr : list event) : list LocalFile :=
  omap (fun e => match e with EvSize lf => Some lf | _ => None end) tr.

(** The outcomes sent on the channel, in order. *)
Definition sends (tr : list event) : list fileStatus :=
  omap (fun e => match e with EvSend st => Some st | _ => None end) tr.

(** The files [Upload] was called on, in order. *)
Definition uploaded (tr : list event) : list LocalFile :=
  omap (fun e => match e with EvUpload lf => Some lf | _ => None end) tr.

(** The files of the goroutines that are past their call of [Upload]. *)
Definition uploaded_by (ts : list task) : list LocalFile :=
  omap (fun t => match t with
                 | TUpload _ => None
                 | TSend st | TDone st => Some (f st)
                 end) ts.

(** The outcomes that carry an error. *)
Definition failed (l : list fileStatus) : list fileStatus :=
  List.filter (fun st => match err st with Some _ => true | None => false end) l.

Arguments exists_calls : simpl never.
Arguments size_calls : simpl never.
Arguments sends : simpl never.
Arguments uploaded : simpl never.
Arguments uploaded_by : simpl never.

(** Events that [processFiles] can produce: everything but the calls made
    by [init], [checkForArgumentErrors], [getFilesToUpload] and [main]. *)
Definition in_dispatcher (e : event) : bool :=
  match e with
  | EvUsage | EvPrint _ | EvExists _ | EvSize _ | EvNewClient _ => false
  | _ => true
  end.

(** A filesystem where every file exists and is exactly 50 KB. *)
Definition boundary_pkg : FilePkg :=
  {| KB := 1024;
     Exists := fun _ => (true, None);
     Size := fun _ => 51200;
     Name := fun lf => (FilePath lf, None) |}.

(** A filesystem and a command line used to exercise the statements:
    [a.txt] is 1 KB, [missing.txt] does not exist, [big.bin] is 100 KB, and
    the display name of [bad/] cannot be computed. *)
Definition example_pkg : FilePkg :=
  {| KB := 1024;
     Exists := fun lf =>
       if String.eqb (FilePath lf) "missing.txt"
       then (false, Some "stat missing.txt: no such file or directory")
       else (true, None);
     Size := fun lf => if String.eqb (FilePath lf) "big.bin" then 102400 else 1024;
     Name := fun lf =>
       if String.eqb (FilePath lf) "bad/"
       then (EmptyString, Some "invalid path")
       else (FilePath lf, None) |}.

Definition example_os (up dr allow : bool) (args : list string) (token : string) : OS :=
  {| cl_upload := up; cl_dryrun := dr; cl_allow_large_files := allow;
     cl_args := args;
     environ := [("HOME", "/root"); ("GITHUB_API_TOKEN", token)] |}.

Definition example_globals (up dr allow : bool) (args : list string) : Globals :=
  globals_after_init (example_os up dr allow args "t0k3n").

(** ** The selector *)

Section SelectorFacts.

Variable pkg : FilePkg.

Lemma getFilesToUpload_body_eq g path acc :
  getFilesToUpload_body pkg path acc g =
  (body_trace pkg g path,
   Ret (if keeps pkg g path then acc ++ [New path (dryRun g)] else acc) g).
Proof.
  unfold getFilesToUpload_body, body_trace, keeps, bind, get, emit, log_Printf,
    ret, not_found_warning, too_large_warning.
  cbn [FilePath New].
  destruct (snd (Exists pkg (New path (dryRun g)))) as [e|]; [reflexivity|].
  destruct (allowLargeFiles g); cbn; [reflexivity|].
  destruct (Size pkg (New path (dryRun g)) >? maxFilesize pkg)%Z; reflexivity.
Qed.

Lemma getFilesToUpload_loop_eq g files acc :
  getFilesToUpload_loop pkg files acc g =
  (flat_map (body_trace pkg g) files,
   Ret (acc ++ map (fun p => New p (dryRun g)) (List.filter (keeps pkg g) files)) g).
Proof.
  revert acc; induction files as [|path rest IH]; intros acc.
  - cbn. by rewrite app_nil_r.
  - cbn [getFilesToUpload_loop flat_map List.filter]. unfold bind at 1.
    rewrite getFilesToUpload_body_eq, IH.
    destruct (keeps pkg g path); cbn [map]; [|reflexivity].
    by rewrite <- app_assoc.
Qed.

Lemma getFilesToUpload_eq g files :
  getFilesToUpload pkg files g =
  (flat_map (body_trace pkg g) files,
   Ret (selected pkg g files,
        if Nat.eqb (length (selected pkg g files)) 0 then Some no_files_error else None) g).
Proof.
  unfold getFilesToUpload, bind. rewrite getFilesToUpload_loop_eq.
  cbn [app]. fold (selected pkg g files).
  destruct (Nat.eqb (length (selected pkg g files)) 0); cbn; by rewrite app_nil_r.
Qed.

Lemma selected_app g l1 l2 : selected pkg g (l1 ++ l2) = selected pkg g l1 ++ selected pkg g l2.
Proof. unfold selected. by rewrite List.filter_app, map_app. Qed.

Lemma selected_cons g p l :
  selected pkg g (p :: l) =
  if keeps pkg g p then New p (dryRun g) :: selected pkg g l else selected pkg g l.
Proof. unfold selected. cbn. by destruct (keeps pkg g p). Qed.

Lemma selected_paths g files :
  map FilePath (selected pkg g files) = List.filter (keeps pkg g) files.
Proof.
  unfold selected. induction (List.filter (keeps pkg g) files) as [|p l IH];
    [reflexivity|]. cbn. by rewrite IH.
Qed.

Lemma elem_of_selected g files lf :
  lf ∈ selected pkg g files ->
  exists p, lf = New p (dryRun g) /\ p ∈ files /\ keeps pkg g p = true.
Proof.
  unfold selected. intros H. apply list_elem_of_In, in_map_iff in H.
  destruct H as (p & <- & Hp). apply filter_In in Hp as [Hp Hk].
  exists p. split; [reflexivity|]. split; [by apply list_elem_of_In|done].
Qed.

Lemma filter_keeps_sublist g files : sublist (List.filter (keeps pkg g) files) files.
Proof.
  induction files as [|p l IH]; cbn; [constructor|].
  destruct (keeps pkg g p); by constructor.
Qed.

Lemma elem_of_flat_map_body g files p e :
  p ∈ files -> e ∈ body_trace pkg g p -> e ∈ flat_map (body_trace pkg g) files.
Proof.
  intros Hp He. apply list_elem_of_In, in_flat_map. exists p.
  split; by apply list_elem_of_In.
Qed.

End SelectorFacts.

(** ** [init], [checkForArgumentErrors], [main] in closed form *)

Lemma init_eq os g :
  init os g =
  if String.eqb (os_Getenv (environ os) GitHubAPITokenEnv) EmptyString
  then ([EvPrint (AString missing_token_message)], Exit 1)
  else ([], Ret tt (globals_after_init os)).
Proof.
  unfold init, flag_Parse, bind, get, put, when, log_Fatal, emit, os_Exit, ret,
    globals_after_init, bind.
  cbn. by destruct (String.eqb (os_Getenv (environ os) GitHubAPITokenEnv) EmptyString).
Qed.

Lemma checkForArgumentErrors_eq g :
  checkForArgumentErrors g =
  if negb (upload g) && negb (dryRun g)
  then ([EvUsage; EvPrint (AString "Nothing to do")], Exit 1)
  else if upload g && dryRun g
  then ([EvPrint (AString "Can't upload and dryrun at the same time")], Exit 1)
  else if upload g && Nat.eqb (length (flagArgs g)) 0
  then ([EvPrint (AString "Selected -upload with no files")], Exit 1)
  else if dryRun g
  then ([EvPrintf "Doing dry run, nothing will be uploaded" []], Ret tt g)
  else ([], Ret tt g).
Proof.
  unfold checkForArgumentErrors, flag_NArg, flag_Usage, bind, get, when,
    log_Fatal, log_Printf, emit, os_Exit, ret, bind.
  destruct (upload g), (dryRun g); cbn; try reflexivity.
  destruct (Nat.eqb (length (flagArgs g)) 0); reflexivity.
Qed.

Lemma checkForArgumentErrors_keeps_globals g tr g' :
  checkForArgumentErrors g = (tr, Ret tt g') -> g' = g.
Proof.
  rewrite checkForArgumentErrors_eq.
  repeat match goal with |- context [if ?b then _ else _] => destruct b end;
    congruence.
Qed.

Lemma main_eq pkg g :
  main pkg g =
  match checkForArgumentErrors g with
  | (trc, Exit c) => (trc, Exit c)
  | (trc, Ret _ _) =>
      let tr := trc ++ flat_map (body_trace pkg g) (flagArgs g) in
      if Nat.eqb (length (selected pkg g (flagArgs g))) 0
      then (tr ++ [EvPrint (AError no_files_error)], Exit 1)
      else (tr ++ [EvNewClient (githubToken g)], Ret (selected pkg g (flagArgs g)) g)
  end.
Proof.
  unfold main. unfold bind at 1.
  destruct (checkForArgumentErrors g) as [trc [[] g'|c]] eqn:Hc; [|reflexivity].
  apply checkForArgumentErrors_keeps_globals in Hc as ->.
  unfold flag_Args, bind, get, ret. cbn [app].
  rewrite getFilesToUpload_eq. cbn [snd fst].
  destruct (Nat.eqb (length (selected pkg g (flagArgs g))) 0);
    unfold log_Fatal, bind, emit, os_Exit; cbn; by rewrite ?app_nil_r, ?app_assoc.
Qed.

Lemma process_eq pkg os sched :
  process pkg os sched =
  if String.eqb (os_Getenv (environ os) GitHubAPITokenEnv) EmptyString
  then ([EvPrint (AString missing_token_message)], Some 1)
  else match main pkg (globals_after_init os) with
       | (tr, Exit code) => (tr, Some code)
       | (tr, Ret files g) =>
           let s := run pkg (dryRun g) sched (processFiles_start files) in
           (tr ++ trace s, exit_status s)
       end.
Proof.
  unfold process, bind. rewrite init_eq.
  destruct (String.eqb (os_Getenv (environ os) GitHubAPITokenEnv) EmptyString);
    [reflexivity|].
  destruct (main pkg (globals_after_init os)) as [tr [files g|c]]; reflexivity.
Qed.

(** Whatever the schedule, [processFiles] has made its channel: the event
    [EvMakeChan] marks every invocation of the dispatcher. *)
Lemma run_trace_prefix pkg dry sched s :
  exists tr, trace (run pkg dry sched s) = trace s ++ tr.
Proof.
  revert s; induction sched as [|c sched IH]; intros s; cbn.
  - exists []. by rewrite app_nil_r.
  - destruct (exec pkg dry c s) as [s'|] eqn:Hs; [|apply IH].
    destruct (IH s') as [tr Htr]. 
    assert (exists tr0, trace s' = trace s ++ tr0) as [tr0 H0].
    { destruct c as [|i res]; cbn in Hs.
      - unfold step_main in Hs.
        destruct (at_pc s) as [|[|lf rest]|[|lf rest]| |]; try discriminate;
          try (destruct dry); try (destruct (chan_recv (ch s)) as [[fi c']|]);
          simplify_eq; cbn; eauto; exists []; by rewrite app_nil_r.
      - unfold step_task in Hs.
        destruct (running s); [|discriminate].
        destruct (tasks s !! i) as [[lf|st|st]|]; try discriminate.
        + destruct (Upload lf res) as [evs e]; simplify_eq; cbn; eauto.
        + destruct (chan_send st (ch s)); simplify_eq; cbn; eauto.
          exists []; by rewrite app_nil_r. }
    exists (tr0 ++ tr). by rewrite Htr, H0, app_assoc.
Qed.

Lemma processFiles_makes_channel pkg dry sched files :
  EvMakeChan (length files) ∈ trace (run pkg dry sched (processFiles_start files)).
Proof.
  destruct (run_trace_prefix pkg dry sched (processFiles_start files)) as [tr ->].
  cbn. apply list_elem_of_here.
Qed.


Lemma Forall_flat_map {A B} (P : B -> Prop) (h : A -> list B) (l : list A) :
  (forall a, Forall P (h a)) -> Forall P (flat_map h l).
Proof.
  intros Hh. induction l as [|a l IH]; cbn; [constructor|].
  apply Forall_app. split; [apply Hh|apply IH].
Qed.

Lemma body_trace_not_dispatched pkg g p : Forall not_dispatched (body_trace pkg g p).
Proof.
  unfold body_trace.
  destruct (snd (Exists pkg (New p (dryRun g)))); [by repeat constructor|].
  destruct (allowLargeFiles g); [by repeat constructor|].
  destruct (Size pkg (New p (dryRun g)) >? maxFilesize pkg)%Z; by repeat constructor.
Qed.

Lemma body_trace_no_size pkg g p lf :
  allowLargeFiles g = true -> EvSize lf ∉ body_trace pkg g p.
Proof.
  intros Ha. unfold body_trace, not_found_warning. rewrite Ha.
  destruct (snd (Exists pkg (New p (dryRun g)))); intros Hin;
    repeat (apply elem_of_cons in Hin as [Hin|Hin]; [discriminate|]);
    by apply not_elem_of_nil in Hin.
Qed.

Lemma checkForArgumentErrors_trace g tr r :
  checkForArgumentErrors g = (tr, r) ->
  Forall not_dispatched tr /\ Forall quiet tr /\
  match r with Exit c => c = 1%Z | Ret _ g' => g' = g end.
Proof.
  rewrite checkForArgumentErrors_eq.
  repeat match goal with |- context [if ?b then _ else _] => destruct b end;
    intros [= <- <-]; (split; [|split]); by repeat constructor.
Qed.

Lemma main_dispatches_selection pkg g tr files g' :
  main pkg g = (tr, Ret files g') -> files = selected pkg g (flagArgs g) /\ g' = g.
Proof.
  rewrite main_eq. destruct (checkForArgumentErrors g) as [trc [[] gc|c]];
    [|discriminate].
  cbn zeta. destruct (Nat.eqb (length (selected pkg g (flagArgs g))) 0);
    [discriminate|]. by intros [= _ <- <-].
Qed.

Lemma not_kept_not_selected pkg g files path :
  keeps pkg g path = false -> path ∉ map FilePath (selected pkg g files).
Proof.
  intros Hk. rewrite selected_paths. intros Hin.
  apply list_elem_of_In, filter_In in Hin as [_ Hin]. congruence.
Qed.

(** C1. A path whose existence check returns an error is left out by
    [getFilesToUpload]: the "not found" warning is logged, the loop goes
    on with the candidates that follow (the returned list and error are
    those of the input without that path), no returned file has that
    path, and neither has any file that [main] passes to [processFiles]. *)
Theorem C1_failed_existence_check_excludes pkg g pre path post e :
  snd (Exists pkg (New path (dryRun g))) = Some e ->
  exists tr out oerr,
    getFilesToUpload pkg (pre ++ path :: post) g = (tr, Ret (out, oerr) g) /\
    not_found_warning path ∈ tr /\
    (path ∉ map FilePath out) /\
    (exists tr', getFilesToUpload pkg (pre ++ post) g = (tr', Ret (out, oerr) g)) /\
    (forall trm files g',
        flagArgs g = pre ++ path :: post ->
        main pkg g = (trm, Ret files g') -> path ∉ map FilePath files).
Proof.
  intros Herr.
  assert (keeps pkg g path = false) as Hk by (unfold keeps; by rewrite Herr).
  assert (selected pkg g (pre ++ path :: post) = selected pkg g (pre ++ post)) as Hsel.
  { by rewrite !selected_app, selected_cons, Hk. }
  eexists _, _, _. split; [apply getFilesToUpload_eq|].
  split; [|split; [|split]].
  - eapply elem_of_flat_map_body.
    + apply elem_of_app; right. apply list_elem_of_here.
    + unfold body_trace. rewrite Herr. apply list_elem_of_further, list_elem_of_here.
  - by apply not_kept_not_selected.
  - eexists. rewrite getFilesToUpload_eq, Hsel. reflexivity.
  - intros trm files g' Hargs Hmain.
    apply main_dispatches_selection in Hmain as [-> _].
    by apply not_kept_not_selected.
Qed.

(** C2. For a file that passes the existence check and whose size is above
    [maxFilesize] (which is 50 times [file.KB]): with [allowLargeFiles]
    false the selector leaves it out and logs the warning that carries its
    actual size; with [allowLargeFiles] true, all else equal, the same file
    is in the returned list and [Size] is never called. *)
Theorem C2_size_ceiling_and_override pkg g pre path post :
  snd (Exists pkg (New path (dryRun g))) = None ->
  (Size pkg (New path (dryRun g)) > maxFilesize pkg)%Z ->
  maxFilesize pkg = (KB pkg * 50)%Z /\
  (exists tr out oerr,
      getFilesToUpload pkg (pre ++ path :: post) (with_allowLargeFiles false g)
      = (tr, Ret (out, oerr) (with_allowLargeFiles false g)) /\
      (path ∉ map FilePath out) /\
      too_large_warning pkg path (Size pkg (New path (dryRun g))) ∈ tr) /\
  (exists tr out,
      getFilesToUpload pkg (pre ++ path :: post) (with_allowLargeFiles true g)
      = (tr, Ret (out, None) (with_allowLargeFiles true g)) /\
      New path (dryRun g) ∈ out /\
      forall lf, EvSize lf ∉ tr).
Proof.
  intros Hex Hsize. split; [reflexivity|].
  assert ((Size pkg (New path (dryRun g)) >? maxFilesize pkg)%Z = true) as Hgt.
  { apply Z.gtb_lt. lia. }
  split.
  - eexists _, _, _. split; [apply getFilesToUpload_eq|]. split.
    + apply not_kept_not_selected. unfold keeps. cbn. by rewrite Hex, Hgt.
    + eapply elem_of_flat_map_body.
      * apply elem_of_app; right. apply list_elem_of_here.
      * unfold body_trace. cbn. rewrite Hex, Hgt.
        do 2 apply list_elem_of_further. apply list_elem_of_here.
  - assert (New path (dryRun g) ∈
            selected pkg (with_allowLargeFiles true g) (pre ++ path :: post)) as Hin.
    { assert (keeps pkg (with_allowLargeFiles true g) path = true) as Hk.
      { unfold keeps. cbn. by rewrite Hex. }
      rewrite selected_app, selected_cons, Hk.
      apply elem_of_app; right. apply list_elem_of_here. }
    eexists _, _. split; [|split; [exact Hin|]].
    + rewrite getFilesToUpload_eq.
      destruct (selected pkg (with_allowLargeFiles true g) (pre ++ path :: post))
        as [|lf l]; [by apply not_elem_of_nil in Hin|reflexivity].
    + intros lf Hlf. apply list_elem_of_In, in_flat_map in Hlf as (p & _ & Hp).
      apply list_elem_of_In in Hp. by apply body_trace_no_size in Hp.
Qed.

Lemma C1_witness :
  exists tr out oerr,
    getFilesToUpload example_pkg (["a.txt"] ++ "missing.txt" :: ["big.bin"])
      (example_globals true false false []) = (tr, Ret (out, oerr) (example_globals true false false [])) /\
    not_found_warning "missing.txt" ∈ tr /\
    ("missing.txt" ∉ map FilePath out) /\
    (exists tr', getFilesToUpload example_pkg (["a.txt"] ++ ["big.bin"])
                   (example_globals true false false [])
                 = (tr', Ret (out, oerr) (example_globals true false false []))) /\
    (forall trm files g',
        flagArgs (example_globals true false false []) = ["a.txt"] ++ "missing.txt" :: ["big.bin"] ->
        main example_pkg (example_globals true false false []) = (trm, Ret files g') ->
        "missing.txt" ∉ map FilePath files).
Proof.
  exact (C1_failed_existence_check_excludes example_pkg
           (example_globals true false false []) ["a.txt"] "missing.txt" ["big.bin"]
           "stat missing.txt: no such file or directory" eq_refl).
Defined.

Lemma C2_witness :
  maxFilesize example_pkg = (KB example_pkg * 50)%Z /\
  (exists tr out oerr,
      getFilesToUpload example_pkg (["a.txt"] ++ "big.bin" :: [])
        (with_allowLargeFiles false (example_globals true false false []))
      = (tr, Ret (out, oerr) (with_allowLargeFiles false (example_globals true false false []))) /\
      ("big.bin" ∉ map FilePath out) /\
      too_large_warning example_pkg "big.bin"
        (Size example_pkg (New "big.bin" (dryRun (example_globals true false false [])))) ∈ tr) /\
  (exists tr out,
      getFilesToUpload example_pkg (["a.txt"] ++ "big.bin" :: [])
        (with_allowLargeFiles true (example_globals true false false []))
      = (tr, Ret (out, None) (with_allowLargeFiles true (example_globals true false false []))) /\
      New "big.bin" (dryRun (example_globals true false false [])) ∈ out /\
      forall lf, EvSize lf ∉ tr).
Proof.
  apply (C2_size_ceiling_and_override example_pkg
           (example_globals true false false []) ["a.txt"] "big.bin" []).
  - reflexivity.
  - reflexivity.
Defined.

(** C3. When the list left by the selector's filter is empty,
    [getFilesToUpload] returns the error "go-gist: no files to upload";
    [main] then passes it to [log.Fatal], so the process exits with status
    1 under every schedule and no event of [processFiles] is in its trace,
    whereas any call of [processFiles] leaves one (it makes its channel
    first). *)
Theorem C3_empty_selection_is_fatal pkg os sched tr out oerr g' :
  getFilesToUpload pkg (cl_args os) (globals_after_init os) = (tr, Ret (out, oerr) g') ->
  out = [] ->
  oerr = Some "go-gist: no files to upload" /\
  (forall trc gc,
      checkForArgumentErrors (globals_after_init os) = (trc, Ret tt gc) ->
      main pkg (globals_after_init os)
      = (trc ++ tr ++ [EvPrint (AError "go-gist: no files to upload")], Exit 1)) /\
  (exists trp, process pkg os sched = (trp, Some 1%Z) /\ Forall not_dispatched trp) /\
  (forall dry files0 sched0,
      ~ Forall not_dispatched (trace (run pkg dry sched0 (processFiles_start files0)))).
Proof.
  rewrite getFilesToUpload_eq. intros [= <- <- <- <-] Hout.
  change (flagArgs (globals_after_init os)) with (cl_args os) in *.
  rewrite Hout. cbn [length Nat.eqb]. split; [reflexivity|]. split; [|split].
  - intros trc gc Hc. rewrite main_eq, Hc. cbn zeta.
    change (flagArgs (globals_after_init os)) with (cl_args os).
    rewrite Hout. cbn [length Nat.eqb]. by rewrite app_assoc.
  - rewrite process_eq.
    destruct (String.eqb _ _); [eexists; split; [reflexivity|by repeat constructor]|].
    rewrite main_eq.
    destruct (checkForArgumentErrors (globals_after_init os)) as [trc [[] gc|c]] eqn:Hc;
      apply checkForArgumentErrors_trace in Hc as (Hnd & _ & Hr).
    + cbn zeta. change (flagArgs (globals_after_init os)) with (cl_args os).
      rewrite Hout. cbn [length Nat.eqb]. eexists; split; [reflexivity|].
      rewrite !Forall_app. split; [split; [done|]|by repeat constructor].
      apply Forall_flat_map. apply body_trace_not_dispatched.
    + subst c. eexists; split; [reflexivity|done].
  - intros dry files0 sched0 Hnone.
    pose proof (processFiles_makes_channel pkg dry sched0 files0) as Hmake.
    rewrite Forall_forall in Hnone. by apply Hnone in Hmake.
Qed.

Lemma C3_witness :
  Some no_files_error = Some "go-gist: no files to upload" /\
  (forall trc gc,
      checkForArgumentErrors (globals_after_init (example_os true false false ["missing.txt"] "t0k3n"))
      = (trc, Ret tt gc) ->
      main example_pkg (globals_after_init (example_os true false false ["missing.txt"] "t0k3n"))
      = (trc ++ flat_map (body_trace example_pkg (example_globals true false false ["missing.txt"]))
                  ["missing.txt"]
             ++ [EvPrint (AError "go-gist: no files to upload")], Exit 1)) /\
  (exists trp,
    process example_pkg (example_os true false false ["missing.txt"] "t0k3n") [Main; Main]
    = (trp, Some 1%Z) /\ Forall not_dispatched trp) /\
  (forall dry files0 sched0,
      ~ Forall not_dispatched
          (trace (run example_pkg dry sched0 (processFiles_start files0)))).
Proof.
  apply (C3_empty_selection_is_fatal example_pkg
           (example_os true false false ["missing.txt"] "t0k3n") [Main; Main]
           _ [] _ (example_globals true false false ["missing.txt"])).
  - reflexivity.
  - reflexivity.
Defined.

(** C6. [checkForArgumentErrors] ends the process through [log.Fatal]
    (status 1) when neither [-upload] nor [-dryrun] is set (after printing
    the usage, with "Nothing to do"), when both are set, and when
    [-upload] comes with no positional argument.  [main] and the whole
    process stop there under every schedule, and up to that point nothing
    has touched the filesystem, the remote client or an upload. *)
Theorem C6_argument_validation pkg os sched :
  (cl_upload os = false /\ cl_dryrun os = false) \/
  (cl_upload os = true /\ cl_dryrun os = true) \/
  (cl_upload os = true /\ cl_args os = []) ->
  exists tr,
    checkForArgumentErrors (globals_after_init os) = (tr, Exit 1) /\
    (cl_upload os = false -> cl_dryrun os = false ->
     tr = [EvUsage; EvPrint (AString "Nothing to do")]) /\
    (cl_upload os = true -> cl_dryrun os = true ->
     tr = [EvPrint (AString "Can't upload and dryrun at the same time")]) /\
    (cl_upload os = true -> cl_dryrun os = false ->
     tr = [EvPrint (AString "Selected -upload with no files")]) /\
    Forall quiet tr /\
    main pkg (globals_after_init os) = (tr, Exit 1) /\
    exists trp,
      process pkg os sched = (trp, Some 1%Z) /\
      Forall quiet trp /\
      (os_Getenv (environ os) GitHubAPITokenEnv <> EmptyString -> trp = tr).
Proof.
  intros Hbad.
  assert (exists tr,
             checkForArgumentErrors (globals_after_init os) = (tr, Exit 1) /\
             (cl_upload os = false -> cl_dryrun os = false ->
              tr = [EvUsage; EvPrint (AString "Nothing to do")]) /\
             (cl_upload os = true -> cl_dryrun os = true ->
              tr = [EvPrint (AString "Can't upload and dryrun at the same time")]) /\
             (cl_upload os = true -> cl_dryrun os = false ->
              tr = [EvPrint (AString "Selected -upload with no files")]))
    as (tr & Hc & H1 & H2 & H3).
  { rewrite checkForArgumentErrors_eq. unfold globals_after_init. cbn.
    destruct Hbad as [[-> ->]|[[-> ->]|[-> ->]]]; cbn.
    - eexists; split; [reflexivity|]. repeat split; congruence.
    - eexists; split; [reflexivity|]. repeat split; congruence.
    - destruct (cl_dryrun os); cbn;
        (eexists; split; [reflexivity|]); repeat split; congruence. }
  exists tr. repeat (split; [assumption|]).
  pose proof (checkForArgumentErrors_trace _ _ _ Hc) as (_ & Hq & _).
  split; [assumption|].
  assert (main pkg (globals_after_init os) = (tr, Exit 1)) as Hmain.
  { by rewrite main_eq, Hc. }
  split; [assumption|].
  rewrite process_eq, Hmain.
  destruct (String.eqb (os_Getenv (environ os) GitHubAPITokenEnv) EmptyString) eqn:Htok.
  - eexists; split; [reflexivity|]. split; [by repeat constructor|].
    apply String.eqb_eq in Htok. congruence.
  - eexists; split; [reflexivity|]. split; [assumption|reflexivity].
Qed.

Lemma C6_witness :
  exists tr,
    checkForArgumentErrors (globals_after_init (example_os true false false [] "t0k3n"))
    = (tr, Exit 1) /\
    (true = false -> false = false -> tr = [EvUsage; EvPrint (AString "Nothing to do")]) /\
    (true = true -> false = true ->
     tr = [EvPrint (AString "Can't upload and dryrun at the same time")]) /\
    (true = true -> false = false ->
     tr = [EvPrint (AString "Selected -upload with no files")]) /\
    Forall quiet tr /\
    main example_pkg (globals_after_init (example_os true false false [] "t0k3n"))
    = (tr, Exit 1) /\
    exists trp,
      process example_pkg (example_os true false false [] "t0k3n") [Main] = (trp, Some 1%Z) /\
      Forall quiet trp /\
      (os_Getenv (environ (example_os true false false [] "t0k3n")) GitHubAPITokenEnv
       <> EmptyString -> trp = tr).
Proof.
  apply (C6_argument_validation example_pkg (example_os true false false [] "t0k3n") [Main]).
  right; right. split; reflexivity.
Defined.



(** C10. With [-dryrun] set, [-upload] unset, no positional argument and a
    token in the environment, [checkForArgumentErrors] returns normally
    (it only logs the dry-run notice), [getFilesToUpload] returns the
    error "go-gist: no files to upload", and the process exits with status
    1 under every schedule after logging exactly these two lines: nothing
    of [processFiles] runs. *)
Theorem C10_dry_run_without_files pkg os sched :
  cl_dryrun os = true ->
  cl_upload os = false ->
  cl_args os = [] ->
  os_Getenv (environ os) GitHubAPITokenEnv <> EmptyString ->
  checkForArgumentErrors (globals_after_init os)
  = ([EvPrintf "Doing dry run, nothing will be uploaded" []],
     Ret tt (globals_after_init os)) /\
  getFilesToUpload pkg (cl_args os) (globals_after_init os)
  = ([], Ret ([], Some "go-gist: no files to upload") (globals_after_init os)) /\
  process pkg os sched
  = ([EvPrintf "Doing dry run, nothing will be uploaded" [];
      EvPrint (AError "go-gist: no files to upload")], Some 1%Z).
Proof.
  intros Hdry Hup Hargs Htok.
  assert (checkForArgumentErrors (globals_after_init os)
          = ([EvPrintf "Doing dry run, nothing will be uploaded" []],
             Ret tt (globals_after_init os))) as Hc.
  { rewrite checkForArgumentErrors_eq. unfold globals_after_init at 1 2 3 4 5 6.
    cbn. by rewrite Hdry, Hup. }
  split; [exact Hc|]. split.
  - by rewrite Hargs.
  - rewrite process_eq. apply String.eqb_neq in Htok. rewrite Htok.
    rewrite main_eq, Hc. cbn zeta.
    change (flagArgs (globals_after_init os)) with (cl_args os). by rewrite Hargs.
Qed.

Lemma C10_witness :
  checkForArgumentErrors (globals_after_init (example_os false true false [] "t0k3n"))
  = ([EvPrintf "Doing dry run, nothing will be uploaded" []],
     Ret tt (globals_after_init (example_os false true false [] "t0k3n"))) /\
  getFilesToUpload example_pkg (cl_args (example_os false true false [] "t0k3n"))
    (globals_after_init (example_os false true false [] "t0k3n"))
  = ([], Ret ([], Some "go-gist: no files to upload")
           (globals_after_init (example_os false true false [] "t0k3n"))) /\
  process example_pkg (example_os false true false [] "t0k3n") [Main; Main; Main]
  = ([EvPrintf "Doing dry run, nothing will be uploaded" [];
      EvPrint (AError "go-gist: no files to upload")], Some 1%Z).
Proof.
  apply (C10_dry_run_without_files example_pkg (example_os false true false [] "t0k3n")
           [Main; Main; Main]).
  - reflexivity.
  - reflexivity.
  - reflexivity.
  - discriminate.
Defined.

(** ** The dispatcher *)

Local Open Scope nat_scope.

Lemma received_app tr1 tr2 : received (tr1 ++ tr2) = received tr1 ++ received tr2.
Proof. apply omap_app. Qed.

Lemma started_app tr1 tr2 : started (tr1 ++ tr2) = started tr1 ++ started tr2.
Proof. apply omap_app. Qed.

Lemma logged_app tr1 tr2 : logged (tr1 ++ tr2) = logged tr1 ++ logged tr2.
Proof. apply List.filter_app. Qed.

Lemma sent_app ts1 ts2 : sent (ts1 ++ ts2) = sent ts1 ++ sent ts2.
Proof. apply omap_app. Qed.

Lemma Upload_silent lf res evs e :
  Upload lf res = (evs, e) ->
  received evs = [] /\ started evs = [] /\ logged evs = [].
Proof. unfold Upload. destruct (DryRun lf); intros [= <- <-]; by repeat split. Qed.

Lemma report_silent pkg fi :
  received (report pkg fi) = [] /\ started (report pkg fi) = [] /\
  logged (report pkg fi) = report pkg fi.
Proof.
  unfold report. destruct (err fi); [|by repeat split].
  destruct (Name pkg (f fi)) as [fname [e'|]]; by repeat split.
Qed.

Lemma sent_cons t ts :
  sent (t :: ts) = match t with TDone st => st :: sent ts | _ => sent ts end.
Proof. by destruct t. Qed.

Lemma sent_length ts : length (sent ts) <= length ts.
Proof.
  induction ts as [|t ts IH]; [reflexivity|].
  rewrite sent_cons. destruct t; cbn; lia.
Qed.

Lemma sent_length_pending ts i t :
  ts !! i = Some t -> (forall st, t <> TDone st) -> length (sent ts) < length ts.
Proof.
  revert i; induction ts as [|t0 ts IH]; intros [|i] Hi Hpending;
    try discriminate; rewrite sent_cons; cbn in Hi.
  - simplify_eq. pose proof (sent_length ts).
    destruct t as [lf|st|st]; cbn; try lia. by destruct (Hpending st).
  - specialize (IH _ Hi Hpending). destruct t0; cbn; lia.
Qed.

Lemma sent_pending_exists ts :
  length (sent ts) < length ts ->
  exists i t, ts !! i = Some t /\ forall st, t <> TDone st.
Proof.
  induction ts as [|t0 ts IH]; [cbn; lia|].
  rewrite sent_cons. destruct t0 as [lf|st|st].
  - intros _. exists 0, (TUpload lf). split; [reflexivity|discriminate].
  - intros _. exists 0, (TSend st). split; [reflexivity|discriminate].
  - cbn. intros Hlt. destruct IH as (i & t & Hi & Ht); [lia|].
    exists (S i), t. split; assumption.
Qed.

Lemma sent_insert_send ts i lf st :
  ts !! i = Some (TUpload lf) -> sent (<[i := TSend st]> ts) = sent ts.
Proof.
  revert i; induction ts as [|t0 ts IH]; intros [|i] Hi; try discriminate.
  - change (<[0 := TSend st]> (t0 :: ts)) with (TSend st :: ts).
    rewrite !sent_cons. by simplify_eq/=.
  - change (<[S i := TSend st]> (t0 :: ts)) with (t0 :: <[i := TSend st]> ts).
    rewrite !sent_cons. by rewrite (IH _ Hi).
Qed.

Lemma sent_insert_done ts i st :
  ts !! i = Some (TSend st) -> sent (<[i := TDone st]> ts) ≡ₚ st :: sent ts.
Proof.
  revert i; induction ts as [|t0 ts IH]; intros [|i] Hi; try discriminate.
  - change (<[0 := TDone st]> (t0 :: ts)) with (TDone st :: ts).
    rewrite !sent_cons. by simplify_eq/=.
  - change (<[S i := TDone st]> (t0 :: ts)) with (t0 :: <[i := TDone st]> ts).
    rewrite !sent_cons. specialize (IH _ Hi).
    destruct t0; rewrite IH; [done|done|apply Permutation_swap].
Qed.

Lemma task_file_insert ts i t t' :
  ts !! i = Some t -> task_file t' = task_file t ->
  map task_file (<[i := t']> ts) = map task_file ts.
Proof.
  intros Hi Ht. change (task_file <$> <[i:=t']> ts = task_file <$> ts).
  rewrite list_fmap_insert, Ht. apply list_insert_id.
  by rewrite list_lookup_fmap, Hi.
Qed.

Lemma weight_insert ts i t t' :
  ts !! i = Some t -> task_weight t' < task_weight t ->
  sum_list_with task_weight (<[i := t']> ts) < sum_list_with task_weight ts.
Proof.
  revert i; induction ts as [|t0 ts IH]; intros [|i] Hi Hw; try discriminate.
  - change (<[0 := t']> (t0 :: ts)) with (t' :: ts). simplify_eq/=. lia.
  - change (<[S i := t']> (t0 :: ts)) with (t0 :: <[i := t']> ts).
    specialize (IH _ Hi Hw). simpl. lia.
Qed.

Lemma replicate_snoc {A} (x : A) n : replicate n x ++ [x] = replicate (S n) x.
Proof. induction n as [|n IH]; cbn; [reflexivity|]. by rewrite IH. Qed.

Lemma described_app l1 l2 : described (l1 ++ l2) = described l1 ++ described l2.
Proof. unfold described. apply flat_map_app. Qed.

Lemma exec_transition pkg dry c s s' :
  exec pkg dry c s = Some s' -> transition pkg dry s s'.
Proof.
  destruct c as [|i res]; cbn [exec].
  - unfold step_main.
    destruct (at_pc s) as [|[|lf rest]|[|lf rest]| |] eqn:Hpc; try discriminate.
    + destruct dry eqn:Hdry; intros [= <-]; by constructor.
    + intros [= <-]. by constructor.
    + destruct dry eqn:Hdry; intros [= <-]; by constructor.
    + intros [= <-]. by constructor.
    + destruct (chan_recv (ch s)) as [[fi c]|] eqn:Hrecv; [|discriminate].
      intros [= <-]. by econstructor.
  - unfold step_task. destruct (running s) eqn:Hrun; [|discriminate].
    destruct (tasks s !! i) as [[lf|st|st]|] eqn:Hi; try discriminate.
    + destruct (Upload lf res) as [evs e] eqn:Hup. intros [= <-].
      by econstructor.
    + destruct (chan_send st (ch s)) as [c| |] eqn:Hsend; try discriminate;
        intros [= <-]; by econstructor.
Qed.

Lemma step_transition pkg dry s s' : step pkg dry s s' -> transition pkg dry s s'.
Proof. intros [c Hc]. by eapply exec_transition. Qed.

(** Every step lowers the measure: no execution of [processFiles] is
    infinite. *)
Lemma transition_measure pkg dry s s' :
  transition pkg dry s s' -> measure s' < measure s.
Proof.
  destruct 1 as [s Hpc _|s Hpc _|s lf rest Hpc _|s lf rest Hpc _|s Hpc
                |s lf rest fi c Hpc _|s Hpc
                |s i lf res evs e Hrun Hi _|s i st c Hrun Hi _|s i st Hrun Hi _];
    unfold measure; cbn [filesToProcess at_pc tasks]; rewrite ?Hpc; cbn [pc_weight length];
    try lia.
  - rewrite sum_list_with_app. cbn. lia.
  - pose proof (weight_insert (tasks s) i (TUpload lf) (TSend {| f := lf; err := e |}) Hi).
    cbn in *. lia.
  - pose proof (weight_insert (tasks s) i (TSend st) (TDone st) Hi).
    cbn in *. lia.
  - unfold running in Hrun. destruct (at_pc s); try discriminate; cbn; lia.
Qed.

Lemma chan_recv_open c fi c' :
  closed c = false -> chan_recv c = Some (fi, c') ->
  buf c = fi :: buf c' /\ cap c' = cap c /\ closed c' = false.
Proof.
  unfold chan_recv. intros Hopen. destruct (buf c) as [|st b]; rewrite ?Hopen;
    [discriminate|]. by intros [= <- <-].
Qed.

Lemma chan_send_Sent st c c' :
  chan_send st c = Sent c' ->
  closed c = false /\ length (buf c) < cap c /\
  buf c' = buf c ++ [st] /\ cap c' = cap c /\ closed c' = false.
Proof.
  unfold chan_send. destruct (closed c) eqn:Hc; [discriminate|].
  destruct (Nat.ltb (length (buf c)) (cap c)) eqn:Hlt; [|discriminate].
  intros [= <-]. apply Nat.ltb_lt in Hlt. by repeat split.
Qed.

Lemma chan_send_SendPanic st c : chan_send st c = SendPanic -> closed c = true.
Proof.
  unfold chan_send. destruct (closed c); [done|].
  by destruct (Nat.ltb (length (buf c)) (cap c)).
Qed.

Lemma upload_inv_start pkg files : upload_inv pkg files (processFiles_start files).
Proof. constructor; cbn; done. Qed.

Lemma upload_inv_transition pkg files s s' :
  upload_inv pkg files s -> transition pkg false s s' -> upload_inv pkg files s'.
Proof.
  intros [Hfiles Hcap Hopen Hspawn Hstart Hchan Hdrain Halive Hlog] Htr.
  unfold to_spawn, to_drain in *.
  destruct Htr as [s Hpc Hd|s Hpc _|s lf rest Hpc Hd|s lf rest Hpc _|s Hpc
                |s lf rest fi c Hpc Hrecv|s Hpc
                |s i lf res evs e Hrun Hi Hup|s i st c Hrun Hi Hsend|s i st Hrun Hi Hsend];
    try discriminate.
  - (* line 106, the channel stays open *)
    rewrite Hpc in *. constructor; unfold to_spawn, to_drain; cbn; done.
  - (* line 116, a goroutine is started *)
    rewrite Hpc in *. constructor; unfold to_spawn, to_drain; cbn;
      rewrite ?received_app, ?started_app, ?logged_app, ?sent_app, ?map_app,
        ?app_nil_r; try done; try (by rewrite <- app_assoc); try (by rewrite Hstart).
  - (* the range loop is over *)
    rewrite Hpc in *. constructor; unfold to_spawn, to_drain; cbn; done.
  - (* line 128, an outcome is received *)
    rewrite Hpc in *.
    destruct (chan_recv_open _ _ _ Hopen Hrecv) as (Hbuf & Hcap' & Hopen').
    destruct (report_silent pkg fi) as (Hr1 & Hr2 & Hr3).
    constructor; unfold to_spawn, to_drain; cbn;
      rewrite ?received_app, ?started_app, ?logged_app;
      change (EvRecv fi :: report pkg fi) with ([EvRecv fi] ++ report pkg fi);
      rewrite ?received_app, ?started_app, ?logged_app, ?Hr1, ?Hr2, ?Hr3;
      change (received [EvRecv fi]) with [fi];
      change (started [EvRecv fi]) with (@nil LocalFile);
      change (logged [EvRecv fi]) with (@nil event);
      rewrite ?app_nil_r in *; cbn [app]; try done; try congruence.
    + rewrite <- Hchan, Hbuf. by rewrite <- app_assoc.
    + rewrite length_app. cbn in *. lia.
    + rewrite flat_map_app. cbn. by rewrite app_nil_r, Hlog.
  - (* the drain loop is over *)
    rewrite Hpc in *. constructor; unfold to_spawn, to_drain; cbn; done.
  - (* line 117, a goroutine has uploaded *)
    destruct (Upload_silent _ _ _ _ Hup) as (Hu1 & Hu2 & Hu3).
    assert (map task_file (<[i:=TSend {| f := lf; err := e |}]> (tasks s))
            = map task_file (tasks s)) as Hmap.
    { by apply (task_file_insert _ _ (TUpload lf)). }
    constructor; unfold to_spawn, to_drain; cbn;
      rewrite ?received_app, ?started_app, ?logged_app, ?Hu1, ?Hu2, ?Hu3,
        ?app_nil_r, ?Hmap; try done.
    by rewrite (sent_insert_send _ _ lf).
  - (* line 123, a goroutine has sent *)
    destruct (chan_send_Sent _ _ _ Hsend) as (_ & Hlt & Hbuf & Hcap' & Hopen').
    assert (map task_file (<[i:=TDone st]> (tasks s)) = map task_file (tasks s))
      as Hmap.
    { by apply (task_file_insert _ _ (TSend st)). }
    constructor; unfold to_spawn, to_drain; cbn;
      rewrite ?received_app, ?started_app, ?logged_app, ?app_nil_r, ?Hmap;
      try done; try congruence.
    rewrite Hbuf, sent_insert_done by done.
    rewrite app_assoc, Hchan. symmetry. apply Permutation_cons_append.
  - (* send on a closed channel: excluded, the channel is open *)
    apply chan_send_SendPanic in Hsend. congruence.
Qed.

Lemma upload_inv_reachable pkg files s :
  reachable pkg false files s -> upload_inv pkg files s.
Proof.
  unfold reachable. revert s. apply rtc_ind_r.
  - apply upload_inv_start.
  - intros s1 s2 _ Hstep IH.
    eapply upload_inv_transition; [exact IH|]. by apply step_transition.
Qed.

Lemma run_reachable pkg dry files sched s :
  reachable pkg dry files s -> reachable pkg dry files (run pkg dry sched s).
Proof.
  revert s; induction sched as [|c sched IH]; intros s Hs; cbn; [exact Hs|].
  destruct (exec pkg dry c s) as [s'|] eqn:Hc; apply IH; [|exact Hs].
  eapply rtc_r; [exact Hs|]. by exists c.
Qed.

Lemma run_start_reachable pkg dry files sched :
  reachable pkg dry files (run pkg dry sched (processFiles_start files)).
Proof. apply run_reachable. apply rtc_refl. Qed.

(** In upload mode a goroutine about to send finds room in the channel. *)
Lemma upload_inv_send_enabled pkg files s i st :
  upload_inv pkg files s -> tasks s !! i = Some (TSend st) ->
  running s = true /\ length (buf (ch s)) < cap (ch s).
Proof.
  intros [Hfiles Hcap Hopen Hspawn Hstart Hchan Hdrain Halive Hlog] Hi.
  assert (length (sent (tasks s)) < length (tasks s)) as Hpending.
  { eapply sent_length_pending; [exact Hi|discriminate]. }
  apply Permutation_length in Hchan. rewrite length_app in Hchan.
  assert (length (tasks s) + length (to_spawn s) = length files) as Hlen.
  { by rewrite <- Hspawn, length_app, length_map. }
  split; [|lia].
  unfold running, to_drain, to_spawn in *. destruct (at_pc s); try done.
  cbn in *. lia.
Qed.

(** In upload mode, once [processFiles] has returned, every goroutine has
    finished and the outcomes received are those that were sent. *)
Lemma upload_inv_returned pkg files s :
  upload_inv pkg files s -> at_pc s = PReturned ->
  length (received (trace s)) = length files /\
  received (trace s) ≡ₚ sent (tasks s) /\
  map f (sent (tasks s)) = files /\
  started (trace s) = files /\
  buf (ch s) = [].
Proof.
  intros [Hfiles Hcap Hopen Hspawn Hstart Hchan Hdrain Halive Hlog] Hpc.
  unfold to_drain, to_spawn in *. rewrite Hpc in *. rewrite app_nil_r in Hspawn.
  assert (length (received (trace s)) = length files) as Hrecv by lia.
  pose proof (Permutation_length Hchan) as Hlen. rewrite length_app in Hlen.
  pose proof (sent_length (tasks s)) as Hsent.
  assert (length (tasks s) = length files) as Htasks.
  { by rewrite <- Hspawn, length_map. }
  assert (buf (ch s) = []) as Hbuf.
  { destruct (buf (ch s)); [done|]. cbn in Hlen. lia. }
  rewrite Hbuf, app_nil_r in Hchan.
  repeat split; try done; [|congruence].
  rewrite <- Hspawn.
  assert (length (sent (tasks s)) = length (tasks s)) as Hall by lia.
  clear -Hall. induction (tasks s) as [|t ts IH]; [done|].
  rewrite sent_cons in *. pose proof (sent_length ts).
  destruct t as [lf|st|st]; cbn in *; try lia. f_equal. apply IH. lia.
Qed.

(** In upload mode some goroutine can always move until [processFiles]
    has returned. *)
Lemma upload_inv_progress pkg files s :
  upload_inv pkg files s -> at_pc s <> PReturned ->
  exists c s', exec pkg false c s = Some s'.
Proof.
  intros Hinv Hpc.
  destruct (step_main pkg false s) as [s'|] eqn:Hmain.
  { by exists Main, s'. }
  pose proof Hinv as [Hfiles Hcap Hopen Hspawn Hstart Hchan Hdrain Halive Hlog].
  unfold step_main in Hmain.
  destruct (at_pc s) as [|[|lf rest]|[|lf rest]| |] eqn:Hat; try done.
  unfold chan_recv in Hmain. rewrite Hopen in Hmain.
  destruct (buf (ch s)) as [|fi b] eqn:Hbuf; [|done].
  unfold to_drain, to_spawn in *. rewrite Hat in *.
  rewrite app_nil_r in Hspawn, Hchan.
  apply Permutation_length in Hchan.
  assert (length (tasks s) = length files) as Htasks.
  { by rewrite <- Hspawn, length_map. }
  destruct (sent_pending_exists (tasks s)) as (i & t & Hi & Hpending).
  { cbn in Hdrain. lia. }
  destruct t as [lf'|st|st]; [| |by destruct (Hpending st)].
  - exists (Task i None). cbn. unfold step_task, running. rewrite Hat, Hi.
    destruct (Upload lf' None); eauto.
  - destruct (upload_inv_send_enabled _ _ _ _ _ Hinv Hi) as [_ Hroom].
    exists (Task i None). cbn. unfold step_task, running, chan_send.
    rewrite Hat, Hi, Hopen. apply Nat.ltb_lt in Hroom. rewrite Hroom. eauto.
Qed.

(** *** Dry run *)

Lemma chan_recv_closed_empty c fi c' :
  closed c = true -> buf c = [] -> chan_recv c = Some (fi, c') ->
  fi = zero_fileStatus /\ c' = c.
Proof. unfold chan_recv. intros -> ->. by intros [= <- <-]. Qed.

Lemma dry_inv_start files : dry_inv files (processFiles_start files).
Proof. constructor; cbn; done. Qed.

Lemma dry_inv_transition pkg files s s' :
  dry_inv files s -> transition pkg true s s' -> dry_inv files s'.
Proof.
  intros [Hfiles Htasks Hbuf Hshape] Htr.
  destruct Htr as [s Hpc _|s Hpc Hd|s lf rest Hpc _|s lf rest Hpc Hd|s Hpc
                |s lf rest fi c Hpc Hrecv|s Hpc
                |s i lf res evs e Hrun Hi Hup|s i st c Hrun Hi Hsend|s i st Hrun Hi Hsend];
    try discriminate; try (rewrite Htasks in Hi; discriminate);
    rewrite Hpc in Hshape; constructor; cbn; try done.
  - (* line 107, close(ch) *)
    destruct Hshape as [_ Htrace]. split; [done|]. exists [].
    split; [by rewrite Hfiles|]. by rewrite Htrace.
  - (* line 112, a synchronous Upload *)
    destruct Hshape as (Hclosed & visited & Hsplit & Htrace). split; [done|].
    exists (visited ++ [lf]). split; [by rewrite <- app_assoc|].
    rewrite Htrace, described_app. unfold described at 3. cbn [flat_map].
    by rewrite app_nil_r, <- app_assoc.
  - (* the range loop is over *)
    destruct Hshape as (Hclosed & visited & Hsplit & Htrace). split; [done|].
    exists 0. rewrite app_nil_r in Hsplit. subst visited.
    split; [by rewrite Hfiles|]. by rewrite Htrace, app_nil_r.
  - (* line 128 on the closed channel *)
    destruct Hshape as (Hclosed & k & Hk & Htrace).
    destruct (chan_recv_closed_empty _ _ _ Hclosed Hbuf Hrecv) as [-> ->]. done.
  - destruct Hshape as (Hclosed & k & Hk & Htrace).
    destruct (chan_recv_closed_empty _ _ _ Hclosed Hbuf Hrecv) as [-> ->].
    split; [done|]. exists (S k). split; [cbn in Hk; lia|].
    rewrite Htrace. cbn [report err zero_fileStatus app].
    rewrite <- replicate_snoc. by rewrite <- !app_assoc.
  - (* the drain loop is over *)
    destruct Hshape as (Hclosed & k & Hk & Htrace). split; [done|].
    cbn in Hk. rewrite Nat.add_0_r in Hk. by subst k.
Qed.

Lemma dry_inv_reachable pkg files s :
  reachable pkg true files s -> dry_inv files s.
Proof.
  unfold reachable. revert s. apply rtc_ind_r.
  - apply dry_inv_start.
  - intros s1 s2 _ Hstep IH.
    eapply dry_inv_transition; [exact IH|]. eapply step_transition, Hstep.
Qed.

(** The trace of a dry run, whatever the program point. *)
Lemma dry_inv_trace files s :
  dry_inv files s ->
  exists visited k,
    trace s = EvMakeChan (length files)
              :: (if closed (ch s) then [EvClose] else [])
              ++ described visited ++ replicate k (EvRecv zero_fileStatus)
    /\ (exists rest, files = visited ++ rest)
    /\ (at_pc s = PClose <-> closed (ch s) = false).
Proof.
  intros [Hfiles Htasks Hbuf Hshape].
  destruct (at_pc s) as [|rest|rest| |] eqn:Hpc.
  - destruct Hshape as [-> ->]. exists [], 0. split; [done|].
    split; [by exists files|done].
  - destruct Hshape as (-> & visited & Hsplit & ->). exists visited, 0.
    split; [by rewrite app_nil_r|]. split; [by exists rest|done].
  - destruct Hshape as (-> & k & Hk & ->). exists files, k.
    split; [done|]. split; [exists []; by rewrite app_nil_r|done].
  - destruct Hshape as (-> & ->). exists files, (length files).
    split; [done|]. split; [exists []; by rewrite app_nil_r|done].
  - done.
Qed.

Lemma described_dry files :
  Forall (fun lf => DryRun lf = true) files ->
  described files = flat_map (fun lf => [EvUpload lf; EvDescribe lf]) files.
Proof.
  induction 1 as [|lf files Hlf _ IH]; [done|].
  unfold described in *. cbn [flat_map]. rewrite IH. unfold Upload. by rewrite Hlf.
Qed.

Lemma dry_inv_events files s :
  Forall (fun lf => DryRun lf = true) files ->
  dry_inv files s -> Forall (fun e => dry_event e = true) (trace s).
Proof.
  intros Hdry Hinv.
  destruct (dry_inv_trace _ _ Hinv) as (visited & k & -> & [rest ->] & _).
  apply Forall_app in Hdry as [Hdry _].
  constructor; [done|]. rewrite !Forall_app. split; [|split].
  - destruct (closed (ch s)); by repeat constructor.
  - rewrite described_dry by done.
    apply Forall_flat_map. intros lf. by repeat constructor.
  - apply Forall_replicate. done.
Qed.

(** In a dry run the main goroutine never waits. *)
Lemma dry_inv_progress pkg files s :
  dry_inv files s -> at_pc s <> PReturned -> is_Some (step_main pkg true s).
Proof.
  intros [Hfiles Htasks Hbuf Hshape] Hpc. unfold step_main.
  destruct (at_pc s) as [|[|lf rest]|[|lf rest]| |] eqn:Hat; try done.
  destruct Hshape as (Hclosed & _). unfold chan_recv. by rewrite Hbuf, Hclosed.
Qed.

Lemma returned_or_not s : at_pc s = PReturned \/ at_pc s <> PReturned.
Proof. destruct (at_pc s); (by left) || by right. Qed.

Lemma dry_run_returns pkg files m s :
  reachable pkg true files s -> measure s <= m ->
  at_pc (run pkg true (replicate m Main) s) = PReturned.
Proof.
  revert s; induction m as [|m IH]; intros s Hreach Hm.
  - pose proof (dry_inv_reachable _ _ _ Hreach) as Hinv.
    destruct (returned_or_not s) as [|Hpc]; [done|].
    destruct (dry_inv_progress pkg _ _ Hinv Hpc) as [s' Hs'].
    apply (exec_transition pkg true Main), transition_measure in Hs'. lia.
  - cbn [replicate run exec].
    destruct (step_main pkg true s) as [s'|] eqn:Hs'.
    + apply IH.
      * eapply rtc_r; [exact Hreach|]. by exists Main.
      * apply (exec_transition pkg true Main), transition_measure in Hs'. lia.
    + pose proof (dry_inv_reachable _ _ _ Hreach) as Hinv.
      destruct (returned_or_not s) as [Hpc|Hpc].
      * clear IH Hm. induction m as [|m IHm]; [done|].
        cbn [replicate run exec]. by rewrite Hs'.
      * destruct (dry_inv_progress pkg _ _ Hinv Hpc) as [s'' Hs'']. congruence.
Qed.

(** *** Consequences *)

Lemma upload_completes pkg files s :
  reachable pkg false files s ->
  exists sched, at_pc (run pkg false sched s) = PReturned.
Proof.
  remember (measure s) as m eqn:Hm. revert s Hm.
  induction m as [m IH] using lt_wf_ind. intros s -> Hreach.
  destruct (returned_or_not s) as [Hpc|Hpc]; [by exists []|].
  destruct (upload_inv_progress pkg files s) as (c & s' & Hc);
    [by apply upload_inv_reachable|done|].
  destruct (IH (measure s')) with (s := s') as [sched Hsched].
  - eapply transition_measure, exec_transition, Hc.
  - reflexivity.
  - eapply rtc_r; [exact Hreach|]. by exists c.
  - exists (c :: sched). cbn. by rewrite Hc.
Qed.

Lemma transition_filesToProcess pkg dry s s' :
  transition pkg dry s s' -> filesToProcess s' = filesToProcess s.
Proof. by destruct 1. Qed.

Lemma reachable_filesToProcess pkg dry files s :
  reachable pkg dry files s -> filesToProcess s = files.
Proof.
  unfold reachable. revert s. apply rtc_ind_r; [done|].
  intros s1 s2 _ Hstep <-. eapply transition_filesToProcess, step_transition, Hstep.
Qed.

Lemma elem_of_logged e tr : e ∈ logged tr -> e ∈ tr.
Proof.
  unfold logged. intros He. apply list_elem_of_In, filter_In in He as [He _].
  by apply list_elem_of_In.
Qed.

Lemma report_logged pkg tr st e :
  logged tr = flat_map (report pkg) (received tr) ->
  st ∈ received tr -> e ∈ report pkg st -> e ∈ tr.
Proof.
  intros Hlog Hst He. apply elem_of_logged. rewrite Hlog.
  apply list_elem_of_In, in_flat_map. exists st. split; by apply list_elem_of_In.
Qed.

(** Once [main] has called [processFiles], in either mode, the process
    can only end with status 0. *)
Lemma process_status_after_dispatch pkg dry sched files :
  exit_status (run pkg dry sched (processFiles_start files)) = None \/
  exit_status (run pkg dry sched (processFiles_start files)) = Some 0%Z.
Proof.
  pose proof (run_start_reachable pkg dry files sched) as Hreach.
  unfold exit_status.
  destruct (at_pc (run pkg dry sched (processFiles_start files))) eqn:Hpc; auto.
  exfalso. destruct dry.
  - apply dry_inv_reachable in Hreach as [_ _ _ Hshape]. by rewrite Hpc in Hshape.
  - apply upload_inv_reachable in Hreach. by destruct Hreach.
Qed.

(** C4. In upload mode, under every schedule and at every moment: the
    channel has capacity N (the number of files) and is open; the
    goroutines started so far are one per file already visited, in input
    order; a goroutine that is about to send can always do so (the buffer
    is not full), so no sender waits; the drain loop has N iterations in
    all, and when [processFiles] has returned it has received exactly N
    outcomes, which are, up to order, the outcomes sent by the N
    goroutines, one per file.  It does return: until then some goroutine
    can move, and some schedule leads to the return. *)
Theorem C4_upload_collects_every_outcome pkg files sched :
  let s := run pkg false sched (processFiles_start files) in
  cap (ch s) = length files /\ closed (ch s) = false /\
  map task_file (tasks s) = started (trace s) /\
  started (trace s) ++ to_spawn s = files /\
  (forall i st res,
      tasks s !! i = Some (TSend st) ->
      exists s', step_task i res s = Some s' /\
                 tasks s' !! i = Some (TDone st) /\ at_pc s' = at_pc s) /\
  length (received (trace s)) + to_drain s = length files /\
  (at_pc s = PReturned ->
   length (received (trace s)) = length files /\
   received (trace s) ≡ₚ sent (tasks s) /\
   map f (sent (tasks s)) = files /\
   started (trace s) = files) /\
  (at_pc s <> PReturned -> exists c s', exec pkg false c s = Some s') /\
  (exists sched', at_pc (run pkg false sched' s) = PReturned).
Proof.
  intros s.
  assert (reachable pkg false files s) as Hreach by apply run_start_reachable.
  assert (upload_inv pkg files s) as Hinv by by apply upload_inv_reachable.
  pose proof Hinv as [Hfiles Hcap Hopen Hspawn Hstart Hchan Hdrain Halive Hlog].
  repeat (split; [done || congruence|]). split.
  - intros i st res Hi.
    destruct (upload_inv_send_enabled _ _ _ _ _ Hinv Hi) as [Hrun Hroom].
    unfold step_task, chan_send. rewrite Hrun, Hi, Hopen.
    apply Nat.ltb_lt in Hroom. rewrite Hroom. eexists. split; [reflexivity|].
    cbn. split; [|done]. apply list_lookup_insert_eq. by eapply lookup_lt_Some.
  - split; [done|]. split; [|split].
    + intros Hpc.
      destruct (upload_inv_returned _ _ _ Hinv Hpc) as (H1 & H2 & H3 & H4 & _).
      done.
    + by apply (upload_inv_progress pkg files).
    + by eapply upload_completes.
Qed.

(** C5. In dry-run mode, for any non-empty list returned by the selector,
    under every schedule and at every moment: no goroutine exists and none
    was started, [Upload] never calls the remote service (each file is
    only described), nothing is sent on the channel, the channel is closed
    by the very first step, the drain loop receives only zero values and
    logs nothing; and [processFiles] does return. *)
Theorem C5_dry_run_spawns_nothing pkg g paths tr files oerr g' sched :
  dryRun g = true ->
  getFilesToUpload pkg paths g = (tr, Ret (files, oerr) g') ->
  files <> [] ->
  let s := run pkg true sched (processFiles_start files) in
  tasks s = [] /\
  (forall lf, (EvGo lf ∉ trace s) /\ (EvCreateGist lf ∉ trace s)) /\
  (forall st, EvSend st ∉ trace s) /\
  buf (ch s) = [] /\
  (at_pc s <> PClose ->
   closed (ch s) = true /\
   exists rest, trace s = EvMakeChan (length files) :: EvClose :: rest) /\
  (forall st, st ∈ received (trace s) -> st = zero_fileStatus) /\
  logged (trace s) = [] /\
  (at_pc s = PReturned ->
   trace s = [EvMakeChan (length files); EvClose]
             ++ flat_map (fun lf => [EvUpload lf; EvDescribe lf]) files
             ++ replicate (length files) (EvRecv zero_fileStatus)) /\
  at_pc (run pkg true (replicate (4 * length files + 3) Main) (processFiles_start files))
  = PReturned.
Proof.
  intros Hdry Hsel Hne s.
  rewrite getFilesToUpload_eq in Hsel. injection Hsel as _ Hfiles _ _.
  assert (Forall (fun lf => DryRun lf = true) files) as Hall.
  { subst files. apply Forall_forall. intros lf Hlf.
    apply elem_of_selected in Hlf as (p & -> & _). exact Hdry. }
  assert (dry_inv files s) as Hinv.
  { eapply dry_inv_reachable, run_start_reachable. }
  pose proof (dry_inv_events _ _ Hall Hinv) as Hev.
  destruct (dry_inv_trace _ _ Hinv) as (visited & k & Htrace & [rest Hsplit] & Hclose).
  pose proof Hinv as [_ Htasks Hbuf Hshape].
  rewrite Forall_forall in Hev.
  split; [done|]. split; [|split; [|split; [done|split; [|split; [|split; [|split]]]]]].
  - intros lf. split; intros Hin; by apply Hev in Hin.
  - intros st Hin. by apply Hev in Hin.
  - intros Hpc. destruct (closed (ch s)) eqn:Hc.
    + split; [done|]. rewrite Htrace. cbn. eauto.
    + destruct Hpc. by apply Hclose.
  - intros st Hst. rewrite Htrace in Hst.
    assert (Forall (fun e => e = EvRecv zero_fileStatus \/ received [e] = [])
              (trace s)) as Hshape'.
    { rewrite Htrace. constructor; [by right|]. rewrite !Forall_app.
      split; [destruct (closed (ch s)); repeat constructor; by right|]. split.
      - apply Forall_flat_map. intros lf. unfold Upload.
        destruct (DryRun lf); repeat constructor; by right.
      - apply Forall_replicate. by left. }
    rewrite <- Htrace in Hst. clear -Hst Hshape'.
    induction Hshape' as [|e tr' He _ IH]; [by apply elem_of_nil in Hst|].
    change (e :: tr') with ([e] ++ tr') in Hst. rewrite received_app in Hst.
    apply elem_of_app in Hst as [Hst|Hst]; [|by apply IH].
    destruct He as [->|He]; [by apply list_elem_of_singleton in Hst|].
    rewrite He in Hst. by apply elem_of_nil in Hst.
  - assert (forall tr', Forall (fun e => dry_event e = true) tr' -> logged tr' = [])
      as Hquiet.
    { induction 1 as [|e tr' He _ IH]; [done|].
      change (e :: tr') with ([e] ++ tr'). rewrite logged_app, IH.
      by destruct e. }
    apply Hquiet. by apply Forall_forall.
  - intros Hpc. rewrite Hpc in Hshape. destruct Hshape as [_ ->].
    by rewrite described_dry.
  - eapply dry_run_returns; [apply rtc_refl|]. unfold measure. cbn. lia.
Qed.

Lemma C4_witness :
  let s := run example_pkg false
             [Main; Main; Main; Task 1 (Some "HTTP 500"); Task 0 None; Task 1 None; Main]
             (processFiles_start [New "a.txt" false; New "big.bin" false]) in
  cap (ch s) = 2 /\ closed (ch s) = false /\
  map task_file (tasks s) = started (trace s) /\
  started (trace s) ++ to_spawn s = [New "a.txt" false; New "big.bin" false] /\
  (forall i st res,
      tasks s !! i = Some (TSend st) ->
      exists s', step_task i res s = Some s' /\
                 tasks s' !! i = Some (TDone st) /\ at_pc s' = at_pc s) /\
  length (received (trace s)) + to_drain s = 2 /\
  (at_pc s = PReturned ->
   length (received (trace s)) = 2 /\
   received (trace s) ≡ₚ sent (tasks s) /\
   map f (sent (tasks s)) = [New "a.txt" false; New "big.bin" false] /\
   started (trace s) = [New "a.txt" false; New "big.bin" false]) /\
  (at_pc s <> PReturned -> exists c s', exec example_pkg false c s = Some s') /\
  (exists sched', at_pc (run example_pkg false sched' s) = PReturned).
Proof.
  exact (C4_upload_collects_every_outcome example_pkg
           [New "a.txt" false; New "big.bin" false]
           [Main; Main; Main; Task 1 (Some "HTTP 500"); Task 0 None; Task 1 None; Main]).
Defined.

Lemma C5_witness :
  let s := run example_pkg true [Main; Main; Task 0 None; Main]
             (processFiles_start [New "a.txt" true]) in
  tasks s = [] /\
  (forall lf, (EvGo lf ∉ trace s) /\ (EvCreateGist lf ∉ trace s)) /\
  (forall st, EvSend st ∉ trace s) /\
  buf (ch s) = [] /\
  (at_pc s <> PClose ->
   closed (ch s) = true /\
   exists rest, trace s = EvMakeChan 1 :: EvClose :: rest) /\
  (forall st, st ∈ received (trace s) -> st = zero_fileStatus) /\
  logged (trace s) = [] /\
  (at_pc s = PReturned ->
   trace s = [EvMakeChan 1; EvClose]
             ++ flat_map (fun lf => [EvUpload lf; EvDescribe lf]) [New "a.txt" true]
             ++ replicate 1 (EvRecv zero_fileStatus)) /\
  at_pc (run example_pkg true (replicate (4 * 1 + 3) Main)
           (processFiles_start [New "a.txt" true]))
  = PReturned.
Proof.
  apply (C5_dry_run_spawns_nothing example_pkg (example_globals false true false [])
           ["a.txt"; "missing.txt"; "big.bin"]
           (flat_map (body_trace example_pkg (example_globals false true false []))
              ["a.txt"; "missing.txt"; "big.bin"])
           [New "a.txt" true] None (example_globals false true false [])
           [Main; Main; Task 0 None; Main]).
  - reflexivity.
  - reflexivity.
  - discriminate.
Defined.

(** C7, as amended.  In upload mode, under every schedule and at every
    moment: the process never dies of a panic and its status is 0 once
    [processFiles] has returned, whatever the outcomes of the uploads; the
    lines logged are exactly one per failing outcome received, in order of
    arrival: "[ERROR] create gist failed (name)" when the display name of
    the file can be computed, and the error of [Name] itself when it cannot;
    an outcome without error logs nothing.  The drain goes on: until
    [processFiles] has returned some goroutine can move, every step lowers
    the measure, and there is a schedule that makes it return; by then
    every outcome sent has been received.  For the whole process: once
    [main] has reached [processFiles], the exit status can only be 0. *)
Theorem C7_upload_failures_are_logged_not_fatal pkg files sched :
  let s := run pkg false sched (processFiles_start files) in
  exit_status s <> Some 2%Z /\
  (at_pc s = PReturned -> exit_status s = Some 0%Z) /\
  logged (trace s) = flat_map (report pkg) (received (trace s)) /\
  (forall st e,
      st ∈ received (trace s) -> err st = Some e ->
      match Name pkg (f st) with
      | (fname, None) =>
          report pkg st = [EvPrintf "[ERROR] create gist failed (%s)" [AString fname]] /\
          EvPrintf "[ERROR] create gist failed (%s)" [AString fname] ∈ trace s
      | (_, Some name_err) =>
          report pkg st = [EvPrintf "%v" [AError name_err]] /\
          EvPrintf "%v" [AError name_err] ∈ trace s
      end) /\
  (forall st, st ∈ received (trace s) -> err st = None -> report pkg st = []) /\
  (at_pc s = PReturned -> received (trace s) ≡ₚ sent (tasks s)) /\
  (at_pc s <> PReturned -> exists c s', exec pkg false c s = Some s') /\
  (forall s', step pkg false s s' -> measure s' < measure s) /\
  (exists sched', at_pc (run pkg false sched' s) = PReturned) /\
  (forall os sched0 tr0 files0 g0,
      (init os ;; main pkg) initial_globals = (tr0, Ret files0 g0) ->
      snd (process pkg os sched0) = None \/ snd (process pkg os sched0) = Some 0%Z).
Proof.
  intros s.
  assert (reachable pkg false files s) as Hreach by apply run_start_reachable.
  pose proof (upload_inv_reachable _ _ _ Hreach) as Hinv.
  pose proof Hinv as [Hfiles Hcap Hopen Hspawn Hstart Hchan Hdrain Halive Hlog].
  split; [unfold exit_status; by destruct (at_pc s)|].
  split; [unfold exit_status; by intros ->|].
  split; [done|]. split; [|split; [|split; [|split; [|split; [|split]]]]].
  - intros st e Hst He.
    assert (forall ev, ev ∈ report pkg st -> ev ∈ trace s) as Hrep.
    { intros ev. by apply report_logged. }
    unfold report in *. rewrite He in *.
    destruct (Name pkg (f st)) as [fname [name_err|]];
      (split; [reflexivity|apply Hrep, list_elem_of_here]).
  - intros st _ He. unfold report. by rewrite He.
  - intros Hpc. by destruct (upload_inv_returned _ _ _ Hinv Hpc) as (_ & H2 & _).
  - by apply (upload_inv_progress pkg files).
  - intros s' Hstep. eapply transition_measure, step_transition, Hstep.
  - by eapply upload_completes.
  - intros os sched0 tr0 files0 g0 Hmain. unfold process. rewrite Hmain. cbn [snd].
    apply process_status_after_dispatch.
Qed.

Lemma C7_witness :
  let s := run example_pkg false
             [Main; Main; Main; Task 1 (Some "HTTP 500"); Task 0 None; Task 1 None; Main]
             (processFiles_start [New "a.txt" false; New "big.bin" false]) in
  exit_status s <> Some 2%Z /\
  (at_pc s = PReturned -> exit_status s = Some 0%Z) /\
  logged (trace s) = flat_map (report example_pkg) (received (trace s)) /\
  (forall st e,
      st ∈ received (trace s) -> err st = Some e ->
      match Name example_pkg (f st) with
      | (fname, None) =>
          report example_pkg st
          = [EvPrintf "[ERROR] create gist failed (%s)" [AString fname]] /\
          EvPrintf "[ERROR] create gist failed (%s)" [AString fname] ∈ trace s
      | (_, Some name_err) =>
          report example_pkg st = [EvPrintf "%v" [AError name_err]] /\
          EvPrintf "%v" [AError name_err] ∈ trace s
      end) /\
  (forall st, st ∈ received (trace s) -> err st = None -> report example_pkg st = []) /\
  (at_pc s = PReturned -> received (trace s) ≡ₚ sent (tasks s)) /\
  (at_pc s <> PReturned -> exists c s', exec example_pkg false c s = Some s') /\
  (forall s', step example_pkg false s s' -> measure s' < measure s) /\
  (exists sched', at_pc (run example_pkg false sched' s) = PReturned) /\
  (forall os sched0 tr0 files0 g0,
      (init os ;; main example_pkg) initial_globals = (tr0, Ret files0 g0) ->
      snd (process example_pkg os sched0) = None \/
      snd (process example_pkg os sched0) = Some 0%Z).
Proof.
  exact (C7_upload_failures_are_logged_not_fatal example_pkg
           [New "a.txt" false; New "big.bin" false]
           [Main; Main; Main; Task 1 (Some "HTTP 500"); Task 0 None; Task 1 None; Main]).
Defined.

(** C7 as first worded fails: here the upload of [bad/] fails, its display
    name cannot be computed, [processFiles] returns, and no line tagged
    with a display name has been logged; the only line is the error of
    [Name]. *)
Lemma C7_counterexample :
  let s := run example_pkg false
             [Main; Main; Main; Task 0 (Some "HTTP 500"); Task 0 None; Main; Main]
             (processFiles_start [New "bad/" false]) in
  at_pc s = PReturned /\
  received (trace s) = [{| f := New "bad/" false; err := Some "HTTP 500" |}] /\
  logged (trace s) = [EvPrintf "%v" [AError "invalid path"]] /\
  ~ (forall st, st ∈ received (trace s) -> err st <> None ->
       exists fname,
         EvPrintf "[ERROR] create gist failed (%s)" [AString fname] ∈ trace s).
Proof.
  cbv zeta. split; [reflexivity|]. split; [reflexivity|]. split; [reflexivity|].
  intros Hclaim.
  destruct (Hclaim {| f := New "bad/" false; err := Some "HTTP 500" |})
    as [fname Hin].
  - vm_compute. apply list_elem_of_here.
  - discriminate.
  - vm_compute in Hin.
    repeat (apply elem_of_cons in Hin as [Hin|Hin]; [discriminate|]).
    by apply elem_of_nil in Hin.
Qed.

(** C9. For every list of paths, the list returned by the selector is
    built from an order-preserving subsequence [kept] of the input: its
    files are, in order, [New p dryRun] for [p] in [kept], so each keeps
    the path it was constructed from and carries the current [dryRun];
    the variables are returned unchanged, and [processFiles] never changes
    the list it was given. *)
Theorem C9_selection_is_a_subsequence pkg g files :
  exists tr kept oerr,
    getFilesToUpload pkg files g
    = (tr, Ret (map (fun p => New p (dryRun g)) kept, oerr) g) /\
    sublist kept files /\
    map FilePath (map (fun p => New p (dryRun g)) kept) = kept /\
    Forall (fun lf => DryRun lf = dryRun g) (map (fun p => New p (dryRun g)) kept) /\
    (forall dry s,
        reachable pkg dry (map (fun p => New p (dryRun g)) kept) s ->
        filesToProcess s = map (fun p => New p (dryRun g)) kept).
Proof.
  exists (flat_map (body_trace pkg g) files), (List.filter (keeps pkg g) files).
  eexists. split; [apply getFilesToUpload_eq|].
  split; [apply filter_keeps_sublist|].
  split; [apply selected_paths|]. split.
  - apply Forall_forall. intros lf Hlf.
    apply elem_of_selected in Hlf as (p & -> & _). reflexivity.
  - intros dry s. apply reachable_filesToProcess.
Qed.

Lemma C9_witness :
  exists tr kept oerr,
    getFilesToUpload example_pkg ["a.txt"; "missing.txt"; "big.bin"]
      (example_globals true false false [])
    = (tr, Ret (map (fun p => New p false) kept, oerr)
            (example_globals true false false [])) /\
    sublist kept ["a.txt"; "missing.txt"; "big.bin"] /\
    map FilePath (map (fun p => New p false) kept) = kept /\
    Forall (fun lf => DryRun lf = false) (map (fun p => New p false) kept) /\
    (forall dry s,
        reachable example_pkg dry (map (fun p => New p false) kept) s ->
        filesToProcess s = map (fun p => New p false) kept).
Proof.
  exact (C9_selection_is_a_subsequence example_pkg
           (example_globals true false false []) ["a.txt"; "missing.txt"; "big.bin"]).
Defined.

(** ** The examples of the specification, run on the model *)

Example selector_default_ceiling :
  getFilesToUpload example_pkg ["a.txt"; "missing.txt"; "big.bin"]
    (example_globals true false false [])
  = ([EvExists (New "a.txt" false); EvSize (New "a.txt" false);
      EvExists (New "missing.txt" false); not_found_warning "missing.txt";
      EvExists (New "big.bin" false); EvSize (New "big.bin" false);
      too_large_warning example_pkg "big.bin" 102400%Z],
     Ret ([New "a.txt" false], None) (example_globals true false false [])).
Proof. reflexivity. Qed.

Example selector_allow_large_files :
  getFilesToUpload example_pkg ["a.txt"; "missing.txt"; "big.bin"]
    (example_globals true false true [])
  = ([EvExists (New "a.txt" false);
      EvExists (New "missing.txt" false); not_found_warning "missing.txt";
      EvExists (New "big.bin" false)],
     Ret ([New "a.txt" false; New "big.bin" false], None)
       (example_globals true false true [])).
Proof. reflexivity. Qed.

Example upload_and_dryrun_conflict :
  process example_pkg (example_os true true false ["a.txt"] "t0k3n") [Main; Main]
  = ([EvPrint (AString "Can't upload and dryrun at the same time")], Some 1%Z).
Proof. reflexivity. Qed.

Example upload_run_with_one_failure :
  process example_pkg (example_os true false true ["a.txt"; "big.bin"] "t0k3n")
    [Main; Main; Main; Main; Task 1 (Some "HTTP 500"); Task 0 None;
     Task 1 None; Main; Task 0 None; Main; Main]
  = ([EvExists (New "a.txt" false); EvExists (New "big.bin" false);
      EvNewClient "t0k3n"; EvMakeChan 2;
      EvGo (New "a.txt" false); EvGo (New "big.bin" false);
      EvUpload (New "big.bin" false); EvCreateGist (New "big.bin" false);
      EvUpload (New "a.txt" false); EvCreateGist (New "a.txt" false);
      EvSend {| f := New "big.bin" false; err := Some "HTTP 500" |};
      EvRecv {| f := New "big.bin" false; err := Some "HTTP 500" |};
      EvPrintf "[ERROR] create gist failed (%s)" [AString "big.bin"];
      EvSend {| f := New "a.txt" false; err := None |};
      EvRecv {| f := New "a.txt" false; err := None |}],
     Some 0%Z).
Proof. reflexivity. Qed.

(** * Further properties of [main.go] *)

(** ** Argument validation and exit status *)

Lemma validation_cases g :
  ((exists tr g', checkForArgumentErrors g = (tr, Ret tt g')) <->
   (upload g <> dryRun g /\ (upload g = true -> flagArgs g <> []))) /\
  (forall tr g',
      checkForArgumentErrors g = (tr, Ret tt g') ->
      g' = g /\
      tr = if dryRun g
           then [EvPrintf "Doing dry run, nothing will be uploaded" []]
           else []) /\
  (forall tr r,
      checkForArgumentErrors g = (tr, r) ->
      (EvUsage ∈ tr <-> upload g = false /\ dryRun g = false)).
Proof.
  rewrite checkForArgumentErrors_eq.
  destruct (upload g) eqn:Hu, (dryRun g) eqn:Hd; cbn [negb andb].
  - split; [split|split].
    + intros (tr & g' & [=]).
    + intros [Hne _]. by destruct Hne.
    + intros tr g' [=].
    + intros tr r [= <- <-]. split; [|by intros [[=] _]].
      intros Hin. apply list_elem_of_singleton in Hin. discriminate.
  - destruct (flagArgs g) as [|a args] eqn:Hargs; cbn [length Nat.eqb].
    + split; [split|split].
      * intros (tr & g' & [=]).
      * intros [_ Hne]. by destruct (Hne eq_refl).
      * intros tr g' [=].
      * intros tr r [= <- <-]. split; [|by intros [[=] _]].
        intros Hin. apply list_elem_of_singleton in Hin. discriminate.
    + split; [split|split].
      * intros _. split; [discriminate|]. intros _. discriminate.
      * intros _. by eexists _, _.
      * by intros tr g' [= <- <-].
      * intros tr r [= <- <-]. split; [|by intros [[=] _]].
        intros Hin. by apply elem_of_nil in Hin.
  - split; [split|split].
    + intros _. split; [discriminate|]. intros [=].
    + intros _. by eexists _, _.
    + by intros tr g' [= <- <-].
    + intros tr r [= <- <-]. split; [|by intros [_ [=]]].
      intros Hin. apply list_elem_of_singleton in Hin. discriminate.
  - split; [split|split].
    + intros (tr & g' & [=]).
    + intros [Hne _]. by destruct Hne.
    + intros tr g' [=].
    + intros tr r [= <- <-]. split; [by intros _|].
      intros _. apply list_elem_of_here.
Qed.

(** X1. [checkForArgumentErrors] returns normally exactly when one and
    only one of [upload] and [dryRun] is set and, in upload mode, there is
    at least one positional argument.  It then leaves the variables as
    they were and logs only the dry-run notice (nothing in upload mode).
    The usage text is printed exactly when neither flag is set. *)
Theorem X1_validation_passes_iff g :
  ((exists tr g', checkForArgumentErrors g = (tr, Ret tt g')) <->
   (upload g <> dryRun g /\ (upload g = true -> flagArgs g <> []))) /\
  (forall tr g',
      checkForArgumentErrors g = (tr, Ret tt g') ->
      g' = g /\
      tr = if dryRun g
           then [EvPrintf "Doing dry run, nothing will be uploaded" []]
           else []) /\
  (forall tr r,
      checkForArgumentErrors g = (tr, r) ->
      (EvUsage ∈ tr <-> upload g = false /\ dryRun g = false)).
Proof. exact (validation_cases g). Qed.


Lemma main_result pkg g :
  match main pkg g with
  | (tr, Ret files g') =>
      files <> [] /\ g' = g /\
      (exists tr0 trs,
          checkForArgumentErrors g = (tr0, Ret tt g) /\
          getFilesToUpload pkg (flagArgs g) g = (trs, Ret (files, None) g) /\
          tr = tr0 ++ trs ++ [EvNewClient (githubToken g)] /\
          forall token, EvNewClient token ∉ tr0 ++ trs)
  | (tr, Exit code) =>
      code = 1%Z /\ forall token, EvNewClient token ∉ tr
  end.
Proof.
  assert (forall tr, Forall quiet tr ->
                     forall token, EvNewClient token ∉ tr) as Hno.
  { intros tr H token Hin. rewrite Forall_forall in H. by apply H in Hin. }
  rewrite main_eq.
  destruct (checkForArgumentErrors g) as [trc [[] gc|c]] eqn:Hc;
    pose proof (checkForArgumentErrors_trace _ _ _ Hc) as (Hnd & Hq & Hr).
  - subst gc. cbn zeta.
    assert (forall token,
               EvNewClient token ∉ trc ++ flat_map (body_trace pkg g) (flagArgs g))
      as Hnone.
    { intros token Hin. apply elem_of_app in Hin as [Hin|Hin].
      - by apply (Hno trc Hq) in Hin.
      - apply list_elem_of_In, in_flat_map in Hin as (p & _ & Hin).
        unfold body_trace, not_found_warning, too_large_warning in Hin.
        repeat match type of Hin with
               | context [match ?x with _ => _ end] => destruct x
               end;
          repeat (destruct Hin as [Hin|Hin]; [discriminate|]); done. }
    destruct (Nat.eqb (length (selected pkg g (flagArgs g))) 0) eqn:Hlen.
    + split; [done|]. intros token Hin. rewrite elem_of_app in Hin.
      destruct Hin as [Hin|Hin]; [by apply Hnone in Hin|].
      apply list_elem_of_singleton in Hin. discriminate.
    + split; [|split; [done|]].
      * intros Hnil. rewrite Hnil in Hlen. discriminate.
      * eexists _, _. split; [reflexivity|].
        split; [by rewrite getFilesToUpload_eq, Hlen|].
        split; [by rewrite app_assoc|]. exact Hnone.
  - split; [done|]. by apply Hno.
Qed.


(** X3. [main] calls [processFiles] only with a non-empty list, the one
    [getFilesToUpload] returned for the positional arguments, and with the
    variables unchanged.  The client is built once, with the token read by
    [init], after validation and every filesystem check, as the last thing
    before the call; when [main] ends in [log.Fatal] (status 1) no client
    was built. *)
Theorem X3_main_dispatches_nonempty pkg g :
  match main pkg g with
  | (tr, Ret files g') =>
      files <> [] /\ g' = g /\
      (exists tr0 trs,
          checkForArgumentErrors g = (tr0, Ret tt g) /\
          getFilesToUpload pkg (flagArgs g) g = (trs, Ret (files, None) g) /\
          tr = tr0 ++ trs ++ [EvNewClient (githubToken g)] /\
          forall token, EvNewClient token ∉ tr0 ++ trs)
  | (tr, Exit code) =>
      code = 1%Z /\ forall token, EvNewClient token ∉ tr
  end.
Proof. exact (main_result pkg g). Qed.

(** ** The selector, continued *)

Lemma exists_calls_app tr1 tr2 :
  exists_calls (tr1 ++ tr2) = exists_calls tr1 ++ exists_calls tr2.
Proof. apply omap_app. Qed.

Lemma size_calls_app tr1 tr2 :
  size_calls (tr1 ++ tr2) = size_calls tr1 ++ size_calls tr2.
Proof. apply omap_app. Qed.

Lemma body_trace_calls pkg g p :
  let lf := New p (dryRun g) in
  exists_calls (body_trace pkg g p) = [lf] /\
  size_calls (body_trace pkg g p)
  = (if allowLargeFiles g then []
     else match snd (Exists pkg lf) with None => [lf] | Some _ => [] end) /\
  length (logged (body_trace pkg g p)) = (if keeps pkg g p then 0 else 1).
Proof.
  unfold body_trace, keeps, not_found_warning, too_large_warning. cbn zeta.
  destruct (snd (Exists pkg (New p (dryRun g)))), (allowLargeFiles g);
    try destruct (Size pkg (New p (dryRun g)) >? maxFilesize pkg)%Z;
    by repeat split.
Qed.

Lemma selector_calls pkg g files :
  exists_calls (flat_map (body_trace pkg g) files)
  = map (fun p => New p (dryRun g)) files /\
  size_calls (flat_map (body_trace pkg g) files)
  = (if allowLargeFiles g then []
     else List.filter
            (fun lf => match snd (Exists pkg lf) with None => true | Some _ => false end)
            (map (fun p => New p (dryRun g)) files)) /\
  length (selected pkg g files) + length (logged (flat_map (body_trace pkg g) files))
  = length files.
Proof.
  induction files as [|p files (IH1 & IH2 & IH3)].
  - by destruct (allowLargeFiles g).
  - destruct (body_trace_calls pkg g p) as (H1 & H2 & H3).
    cbn [flat_map map List.filter].
    rewrite exists_calls_app, size_calls_app, logged_app, selected_cons, length_app,
      H1, H2, H3, IH1, IH2.
    split; [done|]. split.
    + destruct (allowLargeFiles g); [done|].
      by destruct (snd (Exists pkg (New p (dryRun g)))).
    + destruct (keeps pkg g p); cbn [length]; lia.
Qed.

(** X4. [getFilesToUpload] always returns to its caller, with the
    variables unchanged.  Its error is nil exactly when the returned list
    is not empty, and is "go-gist: no files to upload" exactly when it is
    empty; it never returns more files than it was given paths. *)
Theorem X4_selector_error_iff_empty pkg g files :
  exists tr out oerr,
    getFilesToUpload pkg files g = (tr, Ret (out, oerr) g) /\
    (oerr = None <-> out <> []) /\
    (oerr = Some "go-gist: no files to upload" <-> out = []) /\
    length out <= length files.
Proof.
  eexists _, _, _. split; [apply getFilesToUpload_eq|].
  pose proof (selector_calls pkg g files) as (_ & _ & Hlen).
  destruct (selected pkg g files) as [|lf out]; cbn [length Nat.eqb] in *.
  - split; [split; [discriminate|done]|]. split; [done|lia].
  - split; [done|]. split; [split; discriminate|lia].
Qed.

(** X5. [getFilesToUpload] calls [Exists] once per input path, in input
    order, on the file built from that path and the current [dryRun]; and
    every path is accounted for: the number of files returned plus the
    number of lines logged equals the number of paths (one warning per
    dropped path, none for a kept one). *)
Theorem X5_selector_accounts_for_every_path pkg g files :
  exists tr out oerr,
    getFilesToUpload pkg files g = (tr, Ret (out, oerr) g) /\
    exists_calls tr = map (fun p => New p (dryRun g)) files /\
    length out + length (logged tr) = length files.
Proof.
  eexists _, _, _. split; [apply getFilesToUpload_eq|].
  by destruct (selector_calls pkg g files) as (H1 & _ & H3).
Qed.

(** X6. Selection is local to each path: on [files1 ++ files2] the
    events and the returned list are those of [files1] followed by those
    of [files2], and the error is set only when both parts give an empty
    list. *)
Theorem X6_selector_distributes_over_append pkg g files1 files2 :
  exists tr1 out1 oerr1 tr2 out2 oerr2,
    getFilesToUpload pkg files1 g = (tr1, Ret (out1, oerr1) g) /\
    getFilesToUpload pkg files2 g = (tr2, Ret (out2, oerr2) g) /\
    getFilesToUpload pkg (files1 ++ files2) g
    = (tr1 ++ tr2,
       Ret (out1 ++ out2,
            match oerr1, oerr2 with
            | Some _, Some _ => Some "go-gist: no files to upload"
            | _, _ => None
            end) g).
Proof.
  eexists _, _, _, _, _, _.
  split; [apply getFilesToUpload_eq|]. split; [apply getFilesToUpload_eq|].
  rewrite getFilesToUpload_eq, flat_map_app, selected_app, length_app.
  destruct (selected pkg g files1), (selected pkg g files2); reflexivity.
Qed.

(** X8. [Size] is read only when [allowLargeFiles] is off and only for a
    file whose existence check returned no error: the calls of [Size] are,
    in order, exactly the input files that passed [Exists] (none at all
    with the override). *)
Theorem X8_size_is_read_only_after_existence pkg g files :
  exists tr out oerr,
    getFilesToUpload pkg files g = (tr, Ret (out, oerr) g) /\
    size_calls tr
    = (if allowLargeFiles g then []
       else List.filter
              (fun lf => match snd (Exists pkg lf) with None => true | Some _ => false end)
              (map (fun p => New p (dryRun g)) files)) /\
    (forall lf, EvSize lf ∈ tr ->
                allowLargeFiles g = false /\ snd (Exists pkg lf) = None).
Proof.
  eexists _, _, _. split; [apply getFilesToUpload_eq|].
  destruct (selector_calls pkg g files) as (_ & H2 & _). split; [exact H2|].
  intros lf Hin.
  assert (lf ∈ size_calls (flat_map (body_trace pkg g) files)) as Hcall.
  { clear H2. induction (flat_map (body_trace pkg g) files) as [|e tr IH];
      [by apply elem_of_nil in Hin|].
    change (e :: tr) with ([e] ++ tr). rewrite size_calls_app, elem_of_app.
    apply elem_of_cons in Hin as [<-|Hin]; [left; apply list_elem_of_here|].
    right. by apply IH. }
  rewrite H2 in Hcall. destruct (allowLargeFiles g); [by apply elem_of_nil in Hcall|].
  split; [done|]. apply list_elem_of_In, filter_In in Hcall as [_ Hok].
  by destruct (snd (Exists pkg lf)).
Qed.

Lemma no_warning_for_kept pkg g files path :
  keeps pkg g path = true ->
  (not_found_warning path ∉ flat_map (body_trace pkg g) files) /\
  (forall size, too_large_warning pkg path size ∉ flat_map (body_trace pkg g) files).
Proof.
  intros Hk.
  assert (forall e p, e ∈ body_trace pkg g p ->
                      e = not_found_warning path \/
                      (exists size, e = too_large_warning pkg path size) ->
                      keeps pkg g p = false /\ p = path) as Hbody.
  { intros e p Hin He. unfold body_trace, keeps in *.
    destruct (snd (Exists pkg (New p (dryRun g)))) eqn:Hex;
      [|destruct (allowLargeFiles g) eqn:Ha;
        [|destruct (Size pkg (New p (dryRun g)) >? maxFilesize pkg)%Z eqn:Hgt]];
      repeat (apply elem_of_cons in Hin as [->|Hin]);
      try (by apply elem_of_nil in Hin);
      destruct He as [He|[size He]]; try discriminate He;
      injection He as ->; done. }
  split; [|intros size]; intros Hin;
    apply list_elem_of_In, in_flat_map in Hin as (p & _ & Hin);
    apply list_elem_of_In in Hin;
    apply Hbody in Hin as [Hkp ->]; eauto; congruence.
Qed.

(** X7. The ceiling is inclusive: a file that passes the existence check
    and whose size is at most [maxFilesize] (50 KB exactly included) is
    returned, with or without the override, and neither warning is logged
    for its path. *)
Theorem X7_file_at_the_ceiling_is_kept pkg g pre path post :
  snd (Exists pkg (New path (dryRun g))) = None ->
  (Size pkg (New path (dryRun g)) <= maxFilesize pkg)%Z ->
  exists tr out,
    getFilesToUpload pkg (pre ++ path :: post) g = (tr, Ret (out, None) g) /\
    New path (dryRun g) ∈ out /\
    (not_found_warning path ∉ tr) /\
    (forall size, too_large_warning pkg path size ∉ tr).
Proof.
  intros Hex Hsize.
  assert (keeps pkg g path = true) as Hk.
  { unfold keeps. rewrite Hex.
    replace (Size pkg (New path (dryRun g)) >? maxFilesize pkg)%Z with false.
    - by destruct (allowLargeFiles g).
    - symmetry. rewrite Z.gtb_ltb. apply Z.ltb_ge. lia. }
  assert (New path (dryRun g) ∈ selected pkg g (pre ++ path :: post)) as Hin.
  { rewrite selected_app, selected_cons, Hk.
    apply elem_of_app; right. apply list_elem_of_here. }
  eexists _, _. split; [|split; [exact Hin|by apply no_warning_for_kept]].
  rewrite getFilesToUpload_eq.
  destruct (selected pkg g (pre ++ path :: post));
    [by apply elem_of_nil in Hin|reflexivity].
Qed.

Lemma X7_witness :
  exists tr out,
    getFilesToUpload boundary_pkg (["a.txt"] ++ "edge.bin" :: ["b.txt"])
      (example_globals true false false [])
    = (tr, Ret (out, None) (example_globals true false false [])) /\
    New "edge.bin" false ∈ out /\
    (not_found_warning "edge.bin" ∉ tr) /\
    (forall size, too_large_warning boundary_pkg "edge.bin" size ∉ tr).
Proof.
  apply (X7_file_at_the_ceiling_is_kept boundary_pkg
           (example_globals true false false []) ["a.txt"] "edge.bin" ["b.txt"]).
  - reflexivity.
  - cbv. discriminate.
Defined.

(** ** The dispatcher, continued *)

Lemma sends_app tr1 tr2 : sends (tr1 ++ tr2) = sends tr1 ++ sends tr2.
Proof. apply omap_app. Qed.

Lemma uploaded_app tr1 tr2 : uploaded (tr1 ++ tr2) = uploaded tr1 ++ uploaded tr2.
Proof. apply omap_app. Qed.

Lemma uploaded_by_app ts1 ts2 :
  uploaded_by (ts1 ++ ts2) = uploaded_by ts1 ++ uploaded_by ts2.
Proof. apply omap_app. Qed.

Lemma Upload_events lf res evs e :
  Upload lf res = (evs, e) ->
  sends evs = [] /\ uploaded evs = [lf] /\ Forall (fun ev => in_dispatcher ev = true) evs.
Proof.
  unfold Upload. destruct (DryRun lf); intros [= <- <-];
    (split; [done|split; [done|by repeat constructor]]).
Qed.

Lemma report_events pkg fi :
  sends (report pkg fi) = [] /\ uploaded (report pkg fi) = [] /\
  Forall (fun ev => in_dispatcher ev = true) (report pkg fi) /\
  length (report pkg fi) = (match err fi with Some _ => 1 | None => 0 end).
Proof.
  unfold report. destruct (err fi); [|by repeat split].
  destruct (Name pkg (f fi)) as [fname [e'|]];
    (split; [done|split; [done|split; [by repeat constructor|done]]]).
Qed.

(** The channel is a queue: what has been received, followed by what is
    still buffered, is what has been sent, in the order of the sends. *)
Lemma fifo_transition pkg files s s' :
  upload_inv pkg files s ->
  received (trace s) ++ buf (ch s) = sends (trace s) ->
  transition pkg false s s' ->
  received (trace s') ++ buf (ch s') = sends (trace s').
Proof.
  intros Hinv Hfifo Htr. pose proof (ui_open _ _ _ Hinv) as Hopen.
  destruct Htr as [s Hpc Hd|s Hpc _|s lf rest Hpc Hd|s lf rest Hpc _|s Hpc
                |s lf rest fi c Hpc Hrecv|s Hpc
                |s i lf res evs e Hrun Hi Hup|s i st c Hrun Hi Hsend|s i st Hrun Hi Hsend];
    try discriminate; cbn [trace ch]; try done.
  - rewrite received_app, sends_app.
    change (received [EvGo lf]) with (@nil fileStatus).
    change (sends [EvGo lf]) with (@nil fileStatus). by rewrite !app_nil_r.
  - destruct (chan_recv_open _ _ _ Hopen Hrecv) as (Hbuf & _ & _).
    destruct (report_silent pkg fi) as (Hr1 & _ & _).
    destruct (report_events pkg fi) as (Hs1 & _ & _).
    change (EvRecv fi :: report pkg fi) with ([EvRecv fi] ++ report pkg fi).
    rewrite !received_app, !sends_app, Hr1, Hs1, <- Hfifo, Hbuf.
    change (received [EvRecv fi]) with [fi]. change (sends [EvRecv fi]) with (@nil fileStatus).
    by rewrite !app_nil_r, <- app_assoc.
  - destruct (Upload_silent _ _ _ _ Hup) as (Hu1 & _ & _).
    destruct (Upload_events _ _ _ _ Hup) as (Hs1 & _ & _).
    by rewrite received_app, sends_app, Hu1, Hs1, !app_nil_r.
  - destruct (chan_send_Sent _ _ _ Hsend) as (_ & _ & Hbuf & _ & _).
    rewrite received_app, sends_app, Hbuf, <- Hfifo.
    change (received [EvSend st]) with (@nil fileStatus).
    change (sends [EvSend st]) with [st].
    by rewrite app_nil_r, app_assoc.
Qed.

Lemma fifo_reachable pkg files s :
  reachable pkg false files s ->
  received (trace s) ++ buf (ch s) = sends (trace s).
Proof.
  unfold reachable. revert s. apply rtc_ind_r; [done|].
  intros s1 s2 Hreach Hstep IH.
  eapply fifo_transition; [by apply upload_inv_reachable|exact IH|].
  by apply step_transition.
Qed.

(** X9. In upload mode the drain loop receives the outcomes in the order
    in which the goroutines sent them: at every moment, under every
    schedule, the outcomes received followed by those still in the buffer
    are the outcomes sent, in sending order; once [processFiles] has
    returned, the two sequences are equal. *)
Theorem X9_outcomes_arrive_in_sending_order pkg files sched :
  let s := run pkg false sched (processFiles_start files) in
  received (trace s) ++ buf (ch s) = sends (trace s) /\
  (at_pc s = PReturned -> received (trace s) = sends (trace s)).
Proof.
  intros s.
  assert (reachable pkg false files s) as Hreach by apply run_start_reachable.
  pose proof (fifo_reachable _ _ _ Hreach) as Hfifo. split; [exact Hfifo|].
  intros Hpc.
  destruct (upload_inv_returned pkg files s) as (_ & _ & _ & _ & Hbuf);
    [by apply upload_inv_reachable|done|].
  by rewrite Hbuf, app_nil_r in Hfifo.
Qed.

Lemma uploaded_by_cons t ts :
  uploaded_by (t :: ts)
  = match t with
    | TUpload _ => uploaded_by ts
    | TSend st | TDone st => f st :: uploaded_by ts
    end.
Proof. by destruct t. Qed.

Lemma uploaded_by_insert_send ts i lf e :
  ts !! i = Some (TUpload lf) ->
  uploaded_by (<[i := TSend {| f := lf; err := e |}]> ts) ≡ₚ lf :: uploaded_by ts.
Proof.
  revert i; induction ts as [|t0 ts IH]; intros [|i] Hi; try discriminate.
  - change (<[0 := TSend {| f := lf; err := e |}]> (t0 :: ts))
      with (TSend {| f := lf; err := e |} :: ts).
    rewrite !uploaded_by_cons. by simplify_eq/=.
  - change (<[S i := TSend {| f := lf; err := e |}]> (t0 :: ts))
      with (t0 :: <[i := TSend {| f := lf; err := e |}]> ts).
    rewrite !uploaded_by_cons. specialize (IH _ Hi).
    destruct t0; rewrite IH; [done|apply Permutation_swap..].
Qed.

Lemma uploaded_by_insert_done ts i st :
  ts !! i = Some (TSend st) ->
  uploaded_by (<[i := TDone st]> ts) = uploaded_by ts.
Proof.
  revert i; induction ts as [|t0 ts IH]; intros [|i] Hi; try discriminate.
  - change (<[0 := TDone st]> (t0 :: ts)) with (TDone st :: ts).
    rewrite !uploaded_by_cons. by simplify_eq/=.
  - change (<[S i := TDone st]> (t0 :: ts)) with (t0 :: <[i := TDone st]> ts).
    rewrite !uploaded_by_cons. by rewrite (IH _ Hi).
Qed.

Lemma uploaded_by_sublist ts : sublist (uploaded_by ts) (map task_file ts).
Proof.
  induction ts as [|t ts IH]; [constructor|].
  rewrite uploaded_by_cons. destruct t; cbn [map task_file]; by constructor.
Qed.

Lemma uploaded_by_all_done ts :
  length (sent ts) = length ts -> uploaded_by ts = map task_file ts.
Proof.
  induction ts as [|t ts IH]; [done|].
  rewrite sent_cons, uploaded_by_cons. pose proof (sent_length ts).
  destruct t as [lf|st|st]; cbn [length map task_file]; try lia.
  intros Hlen. f_equal. apply IH. lia.
Qed.

Lemma uploaded_transition pkg s s' :
  uploaded (trace s) ≡ₚ uploaded_by (tasks s) ->
  transition pkg false s s' ->
  uploaded (trace s') ≡ₚ uploaded_by (tasks s').
Proof.
  intros Hinv Htr.
  destruct Htr as [s Hpc Hd|s Hpc _|s lf rest Hpc Hd|s lf rest Hpc _|s Hpc
                |s lf rest fi c Hpc Hrecv|s Hpc
                |s i lf res evs e Hrun Hi Hup|s i st c Hrun Hi Hsend|s i st Hrun Hi Hsend];
    try discriminate; cbn [trace tasks]; try done.
  - rewrite uploaded_app, uploaded_by_app.
    change (uploaded [EvGo lf]) with (@nil LocalFile).
    change (uploaded_by [TUpload lf]) with (@nil LocalFile). by rewrite !app_nil_r.
  - destruct (report_events pkg fi) as (_ & Hu & _).
    change (EvRecv fi :: report pkg fi) with ([EvRecv fi] ++ report pkg fi).
    rewrite !uploaded_app, Hu. change (uploaded [EvRecv fi]) with (@nil LocalFile).
    by rewrite !app_nil_r.
  - destruct (Upload_events _ _ _ _ Hup) as (_ & Hu & _).
    rewrite uploaded_app, Hu, uploaded_by_insert_send by done.
    rewrite Hinv. symmetry. apply Permutation_cons_append.
  - rewrite uploaded_app, uploaded_by_insert_done by done.
    change (uploaded [EvSend st]) with (@nil LocalFile). by rewrite app_nil_r.
Qed.

Lemma uploaded_reachable pkg files s :
  reachable pkg false files s -> uploaded (trace s) ≡ₚ uploaded_by (tasks s).
Proof.
  unfold reachable. revert s. apply rtc_ind_r; [done|].
  intros s1 s2 _ Hstep IH. eapply uploaded_transition; [exact IH|].
  by apply step_transition.
Qed.

Lemma uploaded_described files : uploaded (described files) = files.
Proof.
  induction files as [|lf files IH]; [done|].
  unfold described in *. cbn [flat_map]. rewrite uploaded_app, IH.
  unfold Upload. by destruct (DryRun lf).
Qed.

Lemma uploaded_replicate_recv k st : uploaded (replicate k (EvRecv st)) = [].
Proof.
  induction k as [|k IH]; [done|].
  change (replicate (S k) (EvRecv st)) with ([EvRecv st] ++ replicate k (EvRecv st)).
  by rewrite uploaded_app, IH.
Qed.

(** X10. [Upload] is called at most once per file, and exactly once per
    file by the time [processFiles] returns (no retry, no omission): at
    every moment the files uploaded so far are, up to order, a
    subsequence of the input, and at the return they are the input up to
    order.  In dry-run mode the calls follow the input order: they form a
    prefix of the input, the whole input at the return. *)
Theorem X10_one_upload_call_per_file pkg dry files sched :
  let s := run pkg dry sched (processFiles_start files) in
  (exists l, uploaded (trace s) ≡ₚ l /\ sublist l files) /\
  (at_pc s = PReturned -> uploaded (trace s) ≡ₚ files) /\
  (dry = true ->
   uploaded (trace s) `prefix_of` files /\
   (at_pc s = PReturned -> uploaded (trace s) = files)).
Proof.
  intros s.
  assert (reachable pkg dry files s) as Hreach by apply run_start_reachable.
  destruct dry.
  - apply dry_inv_reachable in Hreach as Hinv.
    destruct (dry_inv_trace _ _ Hinv) as (visited & k & Htrace & [rest Hsplit] & _).
    assert (uploaded (trace s) = visited) as Hup.
    { rewrite Htrace.
      change (EvMakeChan (length files)
              :: (if closed (ch s) then [EvClose] else [])
                 ++ described visited ++ replicate k (EvRecv zero_fileStatus))
        with ([EvMakeChan (length files)]
              ++ (if closed (ch s) then [EvClose] else [])
              ++ described visited ++ replicate k (EvRecv zero_fileStatus)).
      rewrite !uploaded_app, uploaded_described, uploaded_replicate_recv.
      destruct (closed (ch s)); by rewrite app_nil_r. }
    assert (at_pc s = PReturned -> uploaded (trace s) = files) as Hret.
    { intros Hpc. destruct Hinv as [_ _ _ Hshape]. rewrite Hpc in Hshape.
      destruct Hshape as [_ Htr]. rewrite Htr, !uploaded_app.
      rewrite uploaded_described, uploaded_replicate_recv. by rewrite app_nil_r. }
    rewrite Hup in *. subst files. split; [|split; [|split]].
    + exists visited. split; [done|]. by apply sublist_inserts_r.
    + intros Hpc. by rewrite <- (Hret Hpc).
    + by exists rest.
    + done.
  - pose proof (upload_inv_reachable _ _ _ Hreach) as Hinv.
    pose proof (uploaded_reachable _ _ _ Hreach) as Hup.
    split; [|split; [|done]].
    + exists (uploaded_by (tasks s)). split; [done|].
      rewrite <- (ui_spawned _ _ _ Hinv). apply sublist_inserts_r, uploaded_by_sublist.
    + intros Hpc.
      destruct (upload_inv_returned _ _ _ Hinv Hpc) as (Hlen & Hperm & _ & Hstart & Hbuf).
      rewrite Hup, uploaded_by_all_done.
      * rewrite <- (ui_started _ _ _ Hinv). by rewrite Hstart.
      * apply Permutation_length in Hperm. rewrite <- Hperm, Hlen.
        rewrite <- Hstart at 1. by rewrite (ui_started _ _ _ Hinv), length_map.
Qed.

Lemma in_dispatcher_transition pkg dry s s' :
  Forall (fun e => in_dispatcher e = true) (trace s) ->
  transition pkg dry s s' ->
  Forall (fun e => in_dispatcher e = true) (trace s').
Proof.
  intros Hinv Htr.
  destruct Htr as [s Hpc Hd|s Hpc _|s lf rest Hpc Hd|s lf rest Hpc _|s Hpc
                |s lf rest fi c Hpc Hrecv|s Hpc
                |s i lf res evs e Hrun Hi Hup|s i st c Hrun Hi Hsend|s i st Hrun Hi Hsend];
    cbn [trace]; try done; apply Forall_app; (split; [done|]).
  - by repeat constructor.
  - destruct (Upload lf None) as [evs e] eqn:Hup.
    by destruct (Upload_events _ _ _ _ Hup) as (_ & _ & H).
  - by repeat constructor.
  - constructor; [done|]. by destruct (report_events pkg fi) as (_ & _ & H & _).
  - by destruct (Upload_events _ _ _ _ Hup) as (_ & _ & H).
  - by repeat constructor.
Qed.

Lemma in_dispatcher_reachable pkg dry files s :
  reachable pkg dry files s -> Forall (fun e => in_dispatcher e = true) (trace s).
Proof.
  unfold reachable. revert s. apply rtc_ind_r; [by repeat constructor|].
  intros s1 s2 _ Hstep IH. eapply in_dispatcher_transition; [exact IH|].
  eapply step_transition, Hstep.
Qed.

Lemma main_trace_not_dispatched pkg g :
  Forall not_dispatched (fst (main pkg g)).
Proof.
  rewrite main_eq.
  destruct (checkForArgumentErrors g) as [trc [[] gc|c]] eqn:Hc;
    apply checkForArgumentErrors_trace in Hc as (Hnd & _ & _); [|done].
  cbn zeta.
  assert (Forall not_dispatched (trc ++ flat_map (body_trace pkg g) (flagArgs g))).
  { apply Forall_app. split; [done|].
    apply Forall_flat_map, body_trace_not_dispatched. }
  destruct (Nat.eqb (length (selected pkg g (flagArgs g))) 0); cbn [fst];
    apply Forall_app; (split; [done|by repeat constructor]).
Qed.

(** X11. [processFiles] never calls [Exists] or [Size], never builds a
    client and never calls [log.Fatal] or [flag.Usage]; and the trace of
    the whole process is made of two parts, the first without any event
    of the channel, of a goroutine or of an upload, the second with only
    events of [processFiles]: every filesystem check comes before the
    first upload. *)
Theorem X11_selection_precedes_dispatch pkg os sched :
  (forall dry files sched0,
      Forall (fun e => in_dispatcher e = true)
        (trace (run pkg dry sched0 (processFiles_start files)))) /\
  exists tr1 tr2,
    fst (process pkg os sched) = tr1 ++ tr2 /\
    Forall not_dispatched tr1 /\
    Forall (fun e => in_dispatcher e = true) tr2.
Proof.
  split.
  - intros dry files sched0. eapply in_dispatcher_reachable, run_start_reachable.
  - rewrite process_eq.
    destruct (String.eqb (os_Getenv (environ os) GitHubAPITokenEnv) EmptyString).
    + eexists _, []. rewrite app_nil_r. split; [reflexivity|].
      split; by repeat constructor.
    + pose proof (main_trace_not_dispatched pkg (globals_after_init os)) as Hmain.
      destruct (main pkg (globals_after_init os)) as [tr [files g|c]]; cbn [fst] in *.
      * eexists _, _. split; [reflexivity|]. split; [done|].
        eapply in_dispatcher_reachable, run_start_reachable.
      * eexists _, []. rewrite app_nil_r. split; [reflexivity|].
        split; [done|constructor].
Qed.

Lemma nsteps_measure pkg dry k s s' :
  nsteps (step pkg dry) k s s' -> k + measure s' <= measure s.
Proof.
  induction 1 as [s|k s1 s2 s3 Hstep _ IH]; [lia|].
  apply step_transition, transition_measure in Hstep. lia.
Qed.

(** X12. [processFiles] terminates in both modes: an execution from its
    start that has made [k] steps, all goroutines counted, satisfies
    [k + measure s <= 4 * N + 3] for N files, so no execution is longer
    than [4 * N + 3] steps. *)
Theorem X12_processFiles_step_bound pkg dry files k s :
  nsteps (step pkg dry) k (processFiles_start files) s ->
  k + measure s <= 4 * length files + 3.
Proof.
  intros Hsteps. apply nsteps_measure in Hsteps.
  unfold measure in Hsteps at 2. cbn in Hsteps. lia.
Qed.

Lemma X12_witness :
  2 + measure (run example_pkg false [Main; Main]
                 (processFiles_start [New "a.txt" false]))
  <= 4 * length [New "a.txt" false] + 3.
Proof.
  apply (X12_processFiles_step_bound example_pkg false [New "a.txt" false] 2).
  eapply nsteps_l; [by exists Main|].
  eapply nsteps_l; [by exists Main|].
  apply nsteps_O.
Defined.

Lemma failed_report_length pkg l :
  length (flat_map (report pkg) l) = length (failed l).
Proof.
  induction l as [|st l IH]; [done|].
  cbn [flat_map failed List.filter]. rewrite length_app, IH.
  destruct (report_events pkg st) as (_ & _ & _ & ->).
  fold (failed l). by destruct (err st).
Qed.

Lemma failed_length_perm l1 l2 : l1 ≡ₚ l2 -> length (failed l1) = length (failed l2).
Proof.
  induction 1 as [|st l1 l2 _ IH|st1 st2 l|l1 l2 l3 _ IH1 _ IH2];
    unfold failed in *; cbn [List.filter]; [done| | |congruence].
  - destruct (err st); cbn [length]; congruence.
  - by destruct (err st1), (err st2).
Qed.

(** X13. In upload mode the number of lines logged equals the number of
    failing outcomes received; at the return it is the number of goroutines
    whose upload failed, and nothing is logged when every upload
    succeeded. *)
Theorem X13_one_line_per_failed_upload pkg files sched :
  let s := run pkg false sched (processFiles_start files) in
  length (logged (trace s)) = length (failed (received (trace s))) /\
  (at_pc s = PReturned ->
   length (logged (trace s)) = length (failed (sent (tasks s))) /\
   (failed (sent (tasks s)) = [] -> logged (trace s) = [])).
Proof.
  intros s.
  assert (upload_inv pkg files s) as Hinv.
  { apply upload_inv_reachable, run_start_reachable. }
  assert (length (logged (trace s)) = length (failed (received (trace s)))) as Hlen.
  { rewrite (ui_logged _ _ _ Hinv). apply failed_report_length. }
  split; [exact Hlen|]. intros Hpc.
  destruct (upload_inv_returned _ _ _ Hinv Hpc) as (_ & Hperm & _).
  rewrite Hlen, (failed_length_perm _ _ Hperm). split; [done|].
  intros Hnone.
  rewrite (failed_length_perm _ _ Hperm), Hnone in Hlen.
  by destruct (logged (trace s)).
Qed.




Lemma dry_run_only_main_moves pkg files sched s :
  reachable pkg true files s ->
  run pkg true sched s
  = run pkg true
      (replicate
         (length (List.filter (fun c => match c with Main => true | Task _ _ => false end)
                    sched)) Main) s.
Proof.
  revert s; induction sched as [|c sched IH]; intros s Hreach; [done|].
  destruct c as [|i res]; cbn [List.filter length replicate run exec].
  - destruct (step_main pkg true s) as [s'|] eqn:Hmain; [|by apply IH].
    apply IH. eapply rtc_r; [exact Hreach|]. by exists Main.
  - assert (step_task i res s = None) as ->; [|by apply IH].
    apply dry_inv_reachable in Hreach as [_ Htasks _ _].
    unfold step_task. rewrite Htasks. by destruct (running s).
Qed.

(** X15. A dry run is sequential: no goroutine other than the main one
    ever moves, so the state reached under a schedule depends only on how
    many turns the schedule gives to the main goroutine. *)
Theorem X15_dry_run_is_sequential pkg files sched :
  run pkg true sched (processFiles_start files)
  = run pkg true
      (replicate
         (length (List.filter (fun c => match c with Main => true | Task _ _ => false end)
                    sched)) Main)
      (processFiles_start files).
Proof. apply (dry_run_only_main_moves pkg files). apply rtc_refl. Qed.
